(** * Batch ZIP extraction and PDF merge

  A shallow embedding of [批量解压压缩包并合并PDF.py]: the functions
  [check_permissions], [combine_pdfs] and [batch_unzip], written in a small
  monad that carries the file system, the local variables of the script and
  the trace of what the run prints and which handles it opens and closes.
  The calls into [os], [shutil], [zipfile] and [PyPDF2] are modelled by
  their effect on that state. *)

From Stdlib Require Import String Ascii List Bool Arith Lia.
From stdpp Require Import gmap strings list sorting.

Open Scope string_scope.
Open Scope list_scope.

(** ** Python string methods *)

Module Str.

(** [c.lower()] on one byte. Only A..Z change; the suffixes tested by the
    script (".zip", ".pdf") are ASCII, and no other character lowers to one
    of their letters, so bytes above 127 are left alone. *)
Definition lower_ascii (c : ascii) : ascii :=
  let n := nat_of_ascii c in
  if ((65 <=? n) && (n <=? 90))%nat then ascii_of_nat (n + 32) else c.

(** [s.lower()] *)
Fixpoint lower (s : string) : string :=
  match s with
  | EmptyString => EmptyString
  | String c s' => String (lower_ascii c) (lower s')
  end.

(** [s.startswith(p)] *)
Fixpoint startswith (p s : string) : bool :=
  match p, s with
  | EmptyString, _ => true
  | String a p', String b s' => if Ascii.eqb a b then startswith p' s' else false
  | String _ _, EmptyString => false
  end.

(** [s.endswith(p)]: some tail of [s] is [p]. *)
Fixpoint endswith (p s : string) : bool :=
  if String.eqb p s then true
  else match s with
       | EmptyString => false
       | String _ s' => endswith p s'
       end.

(** ['/' in s] *)
Fixpoint has_slash (s : string) : bool :=
  match s with
  | EmptyString => false
  | String c s' => if Ascii.eqb c "/" then true else has_slash s'
  end.

(** [s.split('/')]: the pieces between the ['/'] of [s], at least one. *)
Fixpoint split_slash (s : string) : list string :=
  match s with
  | EmptyString => [EmptyString]
  | String c s' =>
      if Ascii.eqb c "/" then EmptyString :: split_slash s'
      else match split_slash s' with
           | x :: r => String c x :: r
           | [] => [String c EmptyString]
           end
  end.

(** ['/'.join(l)] *)
Fixpoint join_slash (l : list string) : string :=
  match l with
  | [] => EmptyString
  | x :: l' =>
      match l' with
      | [] => x
      | _ :: _ => (x ++ "/" ++ join_slash l')%string
      end
  end.

(** [glob.has_magic(s)]: one of the characters [*], [?], [[] occurs in [s]. *)
Fixpoint has_magic (s : string) : bool :=
  match s with
  | EmptyString => false
  | String c s' =>
      Ascii.eqb c "*" || Ascii.eqb c "?" || Ascii.eqb c "[" || has_magic s'
  end.

End Str.

(** ** [os.path] on POSIX paths *)

Module Path.

(** [os.path.join(a, b)] *)
Definition join (a b : string) : string :=
  if Str.startswith "/" b then b
  else if String.eqb a "" || Str.endswith "/" a then (a ++ b)%string
  else (a ++ "/" ++ b)%string.

(** [os.path.basename(p)]: [p[p.rfind('/') + 1:]], what follows the last
    ['/']. *)
Fixpoint basename (p : string) : string :=
  match p with
  | EmptyString => EmptyString
  | String c p' => if Str.has_slash p then basename p' else p
  end.

(** [p[:p.rfind('/') + 1]]: the path up to and including its last ['/']. *)
Fixpoint upto_last_slash (p : string) : string :=
  match p with
  | EmptyString => EmptyString
  | String c p' =>
      if Str.has_slash p then String c (upto_last_slash p') else EmptyString
  end.

(** [s == '/' * len(s)] *)
Fixpoint all_slashes (s : string) : bool :=
  match s with
  | EmptyString => true
  | String c s' => Ascii.eqb c "/" && all_slashes s'
  end.

(** [s.rstrip('/')] *)
Fixpoint rstrip_slash (s : string) : string :=
  match s with
  | EmptyString => EmptyString
  | String c s' =>
      match rstrip_slash s' with
      | EmptyString => if Ascii.eqb c "/" then EmptyString else String c EmptyString
      | r => String c r
      end
  end.

(** [os.path.dirname(p)], the head of [os.path.split(p)]. *)
Definition dirname (p : string) : string :=
  let head := upto_last_slash p in
  if negb (String.eqb head "") && negb (all_slashes head) then rstrip_slash head
  else head.

End Path.

(** ** Files, archives and the target directory *)

(** A page of a PDF document, identified by a number. *)
Definition page := nat.

(** What a file holds. [Pdf ps true] is a document PyPDF2 reads; [Pdf ps false]
    is a document with pages [ps] that [PdfMerger.append] refuses (encrypted,
    no read permission); [Raw] is anything else, and a [Raw] file named
    [x.pdf] is a corrupt PDF. *)
Inductive content :=
| Raw (bytes : string)
| Pdf (pages : list page) (readable : bool).

#[global] Instance content_eq_dec : EqDecision content.
Proof. solve_decision. Defined.

Definition page_count (c : content) : nat :=
  match c with
  | Pdf ps _ => length ps
  | Raw _ => 0
  end.

(** The exceptions the library calls raise. *)
Inductive exn := BadZipFile | OSError | RuntimeError | PdfReadError.

(** [zipfile.ZipFile(path, 'r')]: a handle, [zipfile.BadZipFile], or another
    exception (an I/O error). *)
Inductive open_result := OpenOk | OpenBadZip | OpenFails.

(** [ZipFile.testzip()]: [None], the name of the first bad member, or an
    exception (an encrypted member, an I/O error). *)
Inductive test_result := TestPass | TestCorrupt (first_bad : string) | TestFails.

(** A file of the target directory as [zipfile] sees it in this run.
    [zip_members] lists the internal entries in archive order, names ending
    in ['/'] being directories. [zip_fault = Some k] says that, in this run,
    [extractall] raises when it reaches the member of index [k], the members
    before it having been written: the disk fails or is full, or a path the
    member needs is taken by what is already in the folder (a file where a
    directory is needed, or the reverse). [zip_partial] is what that error
    leaves of the member it interrupts: nothing when the target could not be
    opened, a truncated file when the copy had begun. *)
Record archive := {
  zip_bytes : nat;
  zip_open : open_result;
  zip_test : test_result;
  zip_members : list (string * content);
  zip_fault : option nat;
  zip_partial : option content
}.

Inductive dirent :=
| File (a : archive)
| SubDir (size : nat).

(** The files under the extraction folder, keyed by full path, each path
    spelled as [os.walk] of the folder reports it. *)
Abbreviation tree := (gmap string content).

(** What a run finds and cannot change. The target path, when it exists
    ([dir_exists]), is a directory, so that [os.listdir] succeeds on it;
    [listing] is what [os.listdir] reports of it, in the order it reports
    it, the extraction folder apart: that one is [extraction] in the state
    below and, when it exists, is a directory the user may remove, so that
    [shutil.rmtree] and [os.makedirs] succeed on it. [glob_elsewhere] is what
    [glob] returns when the path of the target directory itself holds
    wildcard characters and is read as a pattern: the [*.zip] entries of
    the directories that pattern matches, which may be other directories.
    [pdf_merger_available] is the module-level flag. [merged_writable] says
    whether [merger.write] manages to write its output, and
    [failed_write_leaves] what is at the output path after a write that
    fails: nothing new when the output could not be opened, an empty or
    truncated file when it could. *)
Record world := {
  dir_exists : bool;
  can_read : bool;
  can_write : bool;
  can_execute : bool;
  listing : list (string * dirent);
  glob_elsewhere : list string;
  pdf_merger_available : bool;
  merged_writable : bool;
  failed_write_leaves : option content
}.

(** ** Observable trace *)

Inductive handle := HZip (path : string) | HMerger.

(** One constructor per [print] of the script, with the values it formats. *)
Inductive msg :=
| MsgStart (directory : string)
| MsgNoDirectory (directory : string)
| MsgPermCheck (directory : string)
| MsgPermRead (b : bool)
| MsgPermWrite (b : bool)
| MsgPermExecute (b : bool)
| MsgInsufficient (directory : string)
| MsgPleaseEnsure
| MsgSearching
| MsgMethod1 (n : nat)
| MsgMethod2 (n : nat) (pattern : string)
| MsgMethod3 (n : nat)
| MsgAllFiles (first10 : list string)
| MsgUsingMethod (k : nat) (zip_files : list string)
| MsgNoZipFound (directory : string)
| MsgFound (n : nat) (zip_files : list string)
| MsgRemoving (extract_path : string)
| MsgCreated (extract_path : string)
| MsgProcessing (file_path : string)
| MsgFileExists (b : bool)
| MsgFileSize (n : nat)
| MsgZipValid (b : bool)
| MsgCorruptedSkipping
| MsgNotZipSkipping (file_path : string)
| MsgZipContains (n : nat)
| MsgFirstFew (first3 : list string)
| MsgExtractingTo (extract_path : string)
| MsgExtractionCompleted
| MsgAdded (n : nat)
| MsgErrorExtracting (item : string) (e : exn)
| MsgExceptionType (e : exn)
| MsgTraceback
| MsgTotalExtracted (n : nat)
| MsgExpected (n : nat)
| MsgSample (first5 : list string)
| MsgMergeSkipped
| MsgPipInstall
| MsgBatchCompleted
| MsgAllExtractedTo (extract_path : string)
| MsgCombining
| MsgNoPdf
| MsgFoundPdf (n : nat)
| MsgAddingPdf (name : string)
| MsgErrorAdding (pdf : string) (e : exn)
| MsgWriting (output_path : string)
| MsgMergedCreated (output_path : string)
| MsgMergedFrom (n : nat)
| MsgErrorCombining (e : exn).

(** What a run does that can be observed: it prints, opens and closes
    handles, and removes or creates the extraction folder. *)
Inductive event :=
| Print (m : msg)
| Acquire (h : handle)
| Release (h : handle)
| Rmtree (path : string)
| Makedirs (path : string).

(** ** Machine state and the monad of the script *)

(** [extraction] is the folder [combined_extraction] ([None] when it does not
    exist); [total_files_extracted] and [merger] are the local variables of
    that name ([merger] holds the pages appended so far); [trace] grows at
    its end. *)
Record state := {
  extraction : option tree;
  total_files_extracted : nat;
  merger : list page;
  trace : list event
}.

Definition set_extraction (x : option tree) (st : state) : state :=
  {| extraction := x; total_files_extracted := total_files_extracted st;
     merger := merger st; trace := trace st |}.

Definition set_total (n : nat) (st : state) : state :=
  {| extraction := extraction st; total_files_extracted := n;
     merger := merger st; trace := trace st |}.

Definition set_merger (ps : list page) (st : state) : state :=
  {| extraction := extraction st; total_files_extracted := total_files_extracted st;
     merger := ps; trace := trace st |}.

Definition emit (es : list event) (st : state) : state :=
  {| extraction := extraction st; total_files_extracted := total_files_extracted st;
     merger := merger st; trace := trace st ++ es |}.

(** How a block of statements ends: normally with a value, with an
    exception, at a [continue] or at a [return]. *)
Inductive outcome (A : Type) :=
| Normal (a : A)
| Raise (e : exn)
| Continue
| Return.

Arguments Normal {A} a.
Arguments Raise {A} e.
Arguments Continue {A}.
Arguments Return {A}.

Definition M (A : Type) : Type := state -> outcome A * state.

Definition ret {A} (a : A) : M A := fun st => (Normal a, st).

Definition bind {A B} (m : M A) (k : A -> M B) : M B :=
  fun st =>
    match m st with
    | (Normal a, st') => k a st'
    | (Raise e, st') => (Raise e, st')
    | (Continue, st') => (Continue, st')
    | (Return, st') => (Return, st')
    end.

Declare Scope py_scope.
Delimit Scope py_scope with py.
Notation "x <- m ;; k" := (bind m (fun x => k))
  (at level 100, m at next level, right associativity) : py_scope.
Notation "m ;; k" := (bind m (fun _ => k))
  (at level 100, right associativity) : py_scope.
Open Scope py_scope.

Definition get : M state := fun st => (Normal st, st).
Definition modify (f : state -> state) : M unit := fun st => (Normal tt, f st).
Definition print (m : msg) : M unit := modify (emit [Print m]).
Definition raise {A} (e : exn) : M A := fun st => (Raise e, st).
Definition continue_ {A} : M A := fun st => (Continue, st).
Definition return_ {A} : M A := fun st => (Return, st).

(** [try: body except <catches> as e: handler e]. A [continue] or [return]
    inside [body] is not an exception and passes through. *)
Definition try_except {A} (body : M A) (catches : exn -> bool) (handler : exn -> M A) : M A :=
  fun st =>
    match body st with
    | (Raise e, st') => if catches e then handler e st' else (Raise e, st')
    | r => r
    end.

(** [except Exception] *)
Definition any_exception (e : exn) : bool := true.

(** [except zipfile.BadZipFile] *)
Definition is_BadZipFile (e : exn) : bool :=
  match e with BadZipFile => true | _ => false end.

(** [with <open h> as x: body]: the handle is released however [body] ends. *)
Definition with_handle {A} (h : handle) (body : M A) : M A :=
  fun st =>
    let (r, st') := body (emit [Acquire h] st) in
    (r, emit [Release h] st').

(** [for x in l: body x]. [continue] ends the iteration; an exception or a
    [return] ends the loop. *)
Fixpoint for_each {X} (l : list X) (body : X -> M unit) : M unit :=
  match l with
  | [] => ret tt
  | x :: l' =>
      fun st =>
        match body x st with
        | (Normal _, st') | (Continue, st') => for_each l' body st'
        | (Raise e, st') => (Raise e, st')
        | (Return, st') => (Return, st')
        end
  end.

(** A function body: [return] ends it. *)
Definition def_ (body : M unit) : M unit :=
  fun st =>
    match body st with
    | (Return, st') => (Normal tt, st')
    | r => r
    end.

(** ** Library calls *)

Section Library.

Variable w : world.

(** The entry of the target directory that [os.path.join(directory, item)]
    resolves to. *)
Fixpoint lookup_entry (l : list (string * dirent)) (item : string) : option dirent :=
  match l with
  | [] => None
  | (n, d) :: l' => if String.eqb n item then Some d else lookup_entry l' item
  end.

Definition stat (item : string) : option dirent := lookup_entry (listing w) item.

(** The name of the extraction folder inside the target directory. *)
Definition extraction_name : string := "combined_extraction".

(** [os.listdir(directory)], on a target path that is a directory. *)
Definition os_listdir : M (list string) :=
  st <- get ;;
  ret (map fst (listing w) ++
       match extraction st with Some _ => [extraction_name] | None => [] end).

(** [os.path.isfile(os.path.join(directory, item))] *)
Definition os_path_isfile (item : string) : bool :=
  match stat item with
  | Some (File _) => true
  | _ => false
  end.

(** [os.path.exists(os.path.join(directory, item))] *)
Definition os_path_exists (item : string) : bool :=
  match stat item with
  | Some _ => true
  | None => false
  end.

(** [os.path.getsize(os.path.join(directory, item))] *)
Definition os_path_getsize (item : string) : M nat :=
  match stat item with
  | Some (File a) => ret (zip_bytes a)
  | Some (SubDir n) => ret n
  | None => raise OSError
  end.

(** [fnmatch] of a name against ["*.zip"] on POSIX, with the rule of [glob]
    that a pattern not starting with a dot skips hidden names. *)
Definition glob_match_zip (name : string) : bool :=
  negb (Str.startswith "." name) && Str.endswith ".zip" name.

(** [glob.glob(os.path.join(directory, "*.zip"))]. [glob] splits the pattern
    into the path of the directory and [*.zip]. A directory path without
    wildcard characters is taken as it is: its entries that match are
    returned, each joined to it. One with wildcard characters is itself
    read as a pattern, and the result comes from the directories it
    matches. *)
Definition glob_glob_zip (directory : string) : M (list string) :=
  let dirname := Path.dirname (Path.join directory "*.zip") in
  if Str.has_magic dirname then ret (glob_elsewhere w)
  else
    names <- os_listdir ;;
    ret (map (Path.join dirname) (List.filter glob_match_zip names)).

(** [os.path.exists(extract_path)]: the extraction folder exists, no entry
    of [listing] bearing its name. *)
Definition extract_path_exists : M bool :=
  st <- get ;;
  ret (match extraction st with Some _ => true | None => false end).

(** [shutil.rmtree(extract_path)], on a folder the user may remove. *)
Definition shutil_rmtree (extract_path : string) : M unit :=
  modify (fun st => emit [Rmtree extract_path] (set_extraction None st)).

(** [os.makedirs(extract_path, exist_ok=True)] *)
Definition os_makedirs (extract_path : string) : M unit :=
  modify (fun st =>
    emit [Makedirs extract_path]
      match extraction st with
      | Some _ => st
      | None => set_extraction (Some ∅) st
      end).

(** The files under the extraction folder ([∅] when it is missing). *)
Definition files_of (st : state) : tree :=
  match extraction st with
  | Some t => t
  | None => ∅
  end.

(** [for root, dirs, files in os.walk(top): for file in files]: the pairs
    [(root, file)] the two loops go through, one per file under [top], which
    is the extraction folder at both calls. *)
Definition os_walk (top : string) : M (list (string * string)) :=
  st <- get ;;
  ret (map (fun p => (Path.dirname p, Path.basename p)) (map fst (map_to_list (files_of st)))).

(** [zipfile.ZipFile(os.path.join(directory, item), 'r')] as the context
    manager of a [with] block. *)
Definition with_zipfile {A} (directory item : string) (body : archive -> M A) : M A :=
  match stat item with
  | Some (File a) =>
      match zip_open a with
      | OpenOk => with_handle (HZip (Path.join directory item)) (body a)
      | OpenBadZip => raise BadZipFile
      | OpenFails => raise OSError
      end
  | _ => raise OSError
  end.

(** [z.testzip()] *)
Definition testzip (z : archive) : M (option string) :=
  match zip_test z with
  | TestPass => ret None
  | TestCorrupt n => ret (Some n)
  | TestFails => raise RuntimeError
  end.

(** [z.namelist()] *)
Definition namelist (z : archive) : list string := map fst (zip_members z).

(** The entry of [ms] with that name, the last one when several bear it. *)
Fixpoint last_named (ms : list (string * content)) (name : string) : option content :=
  match ms with
  | [] => None
  | m :: ms' =>
      match last_named ms' name with
      | Some c => Some c
      | None => if String.eqb (fst m) name then Some (snd m) else None
      end
  end.

(** [z.getinfo(name)] *)
Definition getinfo (z : archive) (name : string) : option content :=
  last_named (zip_members z) name.

(** What [extractall] goes through: the names of [namelist] in their order,
    each with the entry [getinfo] finds for it. *)
Definition extract_list (z : archive) : list (string * content) :=
  map (fun m => (fst m, default (snd m) (getinfo z (fst m)))) (zip_members z).

(** The components [zipfile] refuses in a member name: [''], ['.'], ['..']. *)
Definition invalid_path_part (x : string) : bool :=
  String.eqb x "" || String.eqb x "." || String.eqb x "..".

(** The name under which [zipfile] extracts a member: the components of
    its name that are not refused, joined again. A leading ['/'], doubled
    ['/'] and the components ['.'] and ['..'] all disappear. *)
Definition arcname (name : string) : string :=
  Str.join_slash (List.filter (fun x => negb (invalid_path_part x)) (Str.split_slash name)).

(** Where [zipfile] writes a member: [os.path.join(extract_path, arcname)].
    ([zipfile] then applies [os.path.normpath], which respells the
    extraction path when that is not in normal form but names the same
    file; the folder is keyed by the spelling [os.walk] gives, which is
    this one.) *)
Definition member_path (extract_path name : string) : string :=
  Path.join extract_path (arcname name).

(** A file member whose name has no component left: its target is the
    extraction folder itself, and opening that for writing raises. *)
Definition unnamed_file (m : string * content) : bool :=
  negb (Str.endswith "/" (fst m)) && String.eqb (arcname (fst m)) "".

(** One member written under [extract_path]: a directory entry makes no
    file, a file entry creates or overwrites the file of that path. *)
Definition extract_member (extract_path : string) (m : string * content) (t : tree) : tree :=
  if Str.endswith "/" (fst m) then t
  else <[member_path extract_path (fst m) := snd m]> t.

(** What an interrupted copy leaves of the member [m]: for a file member,
    the truncated file [partial] holds, if any. *)
Definition leave_partial (extract_path : string) (m : string * content)
    (partial : option content) (t : tree) : tree :=
  match partial with
  | Some c =>
      if Str.endswith "/" (fst m) || String.eqb (arcname (fst m)) "" then t
      else <[member_path extract_path (fst m) := c]> t
  | None => t
  end.

(** The members written one after the other, until the end or until one
    raises. *)
Fixpoint extract_members (extract_path : string) (ms : list (string * content))
    (fault : option nat) (partial : option content) (t : tree) : option exn * tree :=
  match ms with
  | [] => (None, t)
  | m :: ms' =>
      match fault with
      | Some 0 => (Some OSError, leave_partial extract_path m partial t)
      | _ =>
          if unnamed_file m then (Some OSError, t)
          else extract_members extract_path ms' (Nat.pred <$> fault) partial
                 (extract_member extract_path m t)
      end
  end.

(** [z.extractall(extract_path)] *)
Definition extractall (z : archive) (extract_path : string) : M unit :=
  fun st =>
    let (r, t) := extract_members extract_path (extract_list z) (zip_fault z)
                    (zip_partial z) (files_of st) in
    (match r with Some e => Raise e | None => Normal tt end,
     set_extraction (Some t) st).

(** [merger = PdfMerger()] *)
Definition new_PdfMerger : M unit :=
  modify (fun st => emit [Acquire HMerger] (set_merger [] st)).

(** [merger.append(pdf)]: reads the file and adds its pages, or raises. *)
Definition merger_append (pdf : string) : M unit :=
  st <- get ;;
  match files_of st !! pdf with
  | Some (Pdf ps true) => modify (set_merger (merger st ++ ps))
  | Some (Pdf _ false) => raise PdfReadError
  | Some (Raw _) => raise PdfReadError
  | None => raise OSError
  end.

(** [merger.write(output_path)]: the document of the pages appended so far,
    created or overwritten. A write that fails raises, after it has left at
    the output path what [failed_write_leaves] holds. *)
Definition merger_write (output_path : string) : M unit :=
  if merged_writable w then
    modify (fun st => set_extraction (Some (<[output_path := Pdf (merger st) true]> (files_of st))) st)
  else
    match failed_write_leaves w with
    | Some c =>
        modify (fun st => set_extraction (Some (<[output_path := c]> (files_of st))) st)
    | None => ret tt
    end ;;
    raise OSError.

(** [merger.close()] *)
Definition merger_close : M unit :=
  modify (fun st => emit [Release HMerger] (set_merger [] st)).

(** ** The script *)

Definition check_permissions (directory : string) : M bool :=
  let read_permission := can_read w in
  let write_permission := can_write w in
  let execute_permission := can_execute w in
  print (MsgPermCheck directory) ;;
  print (MsgPermRead read_permission) ;;
  print (MsgPermWrite write_permission) ;;
  print (MsgPermExecute execute_permission) ;;
  ret (read_permission && write_permission && execute_permission).

(** [file.lower().endswith('.pdf')] *)
Definition is_pdf_name (file : string) : bool := Str.endswith ".pdf" (Str.lower file).

(** [item.lower().endswith('.zip')] *)
Definition is_zip_name (item : string) : bool := Str.endswith ".zip" (Str.lower item).

(** The list [pdf_files] after the scan of lines 34-38. *)
Definition scan_pdfs (files : list (string * string)) : list string :=
  map (fun rf => Path.join (fst rf) (snd rf))
      (List.filter (fun rf => is_pdf_name (snd rf)) files).

(** [pdf_files.sort()] *)
Definition sort_paths (l : list string) : list string := merge_sort String.le l.

Definition combine_pdfs (directory : string) : M unit :=
  def_ (
    print MsgCombining ;;
    files <- os_walk directory ;;
    let pdf_files := scan_pdfs files in
    match pdf_files with
    | [] => print MsgNoPdf ;; return_
    | _ :: _ =>
      print (MsgFoundPdf (length pdf_files)) ;;
      let pdf_files := sort_paths pdf_files in
      let output_path := Path.join directory "merged.pdf" in
      try_except (
        new_PdfMerger ;;
        for_each pdf_files (fun pdf =>
          try_except (
            print (MsgAddingPdf (Path.basename pdf)) ;;
            merger_append pdf)
          any_exception (fun e =>
            print (MsgErrorAdding pdf e))) ;;
        print (MsgWriting output_path) ;;
        merger_write output_path ;;
        merger_close ;;
        print (MsgMergedCreated output_path) ;;
        print (MsgMergedFrom (length pdf_files)))
      any_exception (fun e =>
        print (MsgErrorCombining e) ;;
        print MsgTraceback)
    end).

(** The body of the loop of lines 134-174, for one [item]. *)
Definition process_item (directory extract_path item : string) : M unit :=
  let file_path := Path.join directory item in
  try_except (
    print (MsgProcessing file_path) ;;
    print (MsgFileExists (os_path_exists item)) ;;
    size <- os_path_getsize item ;;
    print (MsgFileSize size) ;;
    try_except (
      with_zipfile directory item (fun test_zip =>
        r <- testzip test_zip ;;
        let is_valid := match r with None => true | Some _ => false end in
        print (MsgZipValid is_valid) ;;
        if negb is_valid then
          print MsgCorruptedSkipping ;;
          continue_
        else ret tt))
    is_BadZipFile (fun _ =>
      print (MsgNotZipSkipping file_path) ;;
      continue_) ;;
    with_zipfile directory item (fun zip_ref =>
      let file_list := namelist zip_ref in
      print (MsgZipContains (length file_list)) ;;
      match file_list with
      | [] => ret tt
      | _ :: _ => print (MsgFirstFew (take 3 file_list))
      end ;;
      print (MsgExtractingTo extract_path) ;;
      extractall zip_ref extract_path ;;
      print MsgExtractionCompleted ;;
      let files_in_zip := length (List.filter (fun f => negb (Str.endswith "/" f)) file_list) in
      modify (fun st => set_total (total_files_extracted st + files_in_zip) st) ;;
      print (MsgAdded files_in_zip)))
  any_exception (fun e =>
    print (MsgErrorExtracting item e) ;;
    print (MsgExceptionType e) ;;
    print MsgTraceback).

(** The Archive Locator, lines 89-118: the three searches and the choice
    between them. It ends with [return] when all three find nothing. *)
Definition locate_zip_files (directory : string) : M (list string) :=
  print MsgSearching ;;
  names <- os_listdir ;;
  let zip_files := List.filter (fun item => os_path_isfile item && is_zip_name item) names in
  print (MsgMethod1 (length zip_files)) ;;
  let glob_pattern := Path.join directory "*.zip" in
  glob_files <- glob_glob_zip directory ;;
  print (MsgMethod2 (length glob_files) glob_pattern) ;;
  all_files <- os_listdir ;;
  let case_insensitive_zips := List.filter is_zip_name all_files in
  print (MsgMethod3 (length case_insensitive_zips)) ;;
  print (MsgAllFiles (take 10 all_files)) ;;
  if (0 <? length zip_files)%nat then
    print (MsgUsingMethod 1 zip_files) ;;
    ret zip_files
  else if (0 <? length glob_files)%nat then
    let zip_files := map Path.basename glob_files in
    print (MsgUsingMethod 2 zip_files) ;;
    ret zip_files
  else if (0 <? length case_insensitive_zips)%nat then
    let zip_files := case_insensitive_zips in
    print (MsgUsingMethod 3 zip_files) ;;
    ret zip_files
  else
    print (MsgNoZipFound directory) ;;
    return_.

(** Lines 122-131: the extraction folder removed when it exists, created,
    and the counter set to zero. *)
Definition recreate_destination (extract_path : string) : M unit :=
  ex <- extract_path_exists ;;
  (if ex then
     print (MsgRemoving extract_path) ;;
     shutil_rmtree extract_path
   else ret tt) ;;
  os_makedirs extract_path ;;
  print (MsgCreated extract_path) ;;
  modify (set_total 0).

(** Lines 176-196: the report on what was extracted and the merge stage. *)
Definition report_and_merge (extract_path : string) : M unit :=
  files <- os_walk extract_path ;;
  let all_extracted_files := map (fun rf => Path.join (fst rf) (snd rf)) files in
  print (MsgTotalExtracted (length all_extracted_files)) ;;
  st <- get ;;
  print (MsgExpected (total_files_extracted st)) ;;
  match all_extracted_files with
  | [] => ret tt
  | _ :: _ => print (MsgSample (take 5 all_extracted_files))
  end ;;
  (if pdf_merger_available w then
     combine_pdfs extract_path
   else
     print MsgMergeSkipped ;;
     print MsgPipInstall) ;;
  print MsgBatchCompleted ;;
  print (MsgAllExtractedTo extract_path).

Definition batch_unzip (directory : string) : M unit :=
  def_ (
    print (MsgStart directory) ;;
    if negb (dir_exists w) then
      print (MsgNoDirectory directory) ;;
      return_
    else
    ok <- check_permissions directory ;;
    if negb ok then
      print (MsgInsufficient directory) ;;
      print MsgPleaseEnsure ;;
      return_
    else
    zip_files <- locate_zip_files directory ;;
    print (MsgFound (length zip_files) zip_files) ;;
    let extract_path := Path.join directory extraction_name in
    recreate_destination extract_path ;;
    for_each zip_files (process_item directory extract_path) ;;
    report_and_merge extract_path).

End Library.

(** A run of the script on a target directory whose extraction folder is
    [old] when it starts. *)
Definition initial (old : option tree) : state :=
  {| extraction := old; total_files_extracted := 0; merger := []; trace := [] |}.

(** [batch_unzip(directory)] run from that state. *)
Definition run (w : world) (directory : string) (old : option tree) : outcome unit * state :=
  batch_unzip w directory (initial old).

(** * Summaries and sample inputs

    The functions the statements below are written with: what one archive,
    the loop and the merge stage do to the folder, to the counter and to the
    trace; the sentences of the specification that the script does not
    satisfy, worded as propositions; and sample directories on which the
    statements are instantiated. *)

(** ** One archive and the loop *)

(** The archive opens as a ZIP and [testzip] finds nothing wrong. *)
Definition passes_checks (a : archive) : bool :=
  match zip_open a, zip_test a with
  | OpenOk, TestPass => true
  | _, _ => false
  end.

(** The index of the member at which [extractall] raises, [None] when it
    writes them all: the member [zip_fault] points at, or before it the
    first file member without a name. *)
Fixpoint raise_index (ms : list (string * content)) (fault : option nat) : option nat :=
  match ms with
  | [] => None
  | m :: ms' =>
      match fault with
      | Some 0 => Some 0
      | _ =>
          if unnamed_file m then Some 0
          else S <$> raise_index ms' (Nat.pred <$> fault)
      end
  end.

(** [extractall] raises before the last member is written. *)
Definition fault_strikes (a : archive) : bool :=
  match raise_index (extract_list a) (zip_fault a) with
  | Some _ => true
  | None => false
  end.

(** A valid archive: it passes both checks and extracts to the end. *)
Definition valid (a : archive) : bool := passes_checks a && negb (fault_strikes a).

(** The internal entries of an archive that are not directories. *)
Definition file_entries (a : archive) : list string :=
  List.filter (fun f => negb (Str.endswith "/" f)) (namelist a).

(** The members [ms] written one after the other into the folder [t]. *)
Definition write_all (extract_path : string) (ms : list (string * content)) (t : tree) : tree :=
  fold_left (fun t m => extract_member extract_path m t) ms t.

(** The folder [extractall] leaves when it raises at the member of index
    [k]: the [k] members before it written and, when the error is the one
    [fault] announces, what it left of the member it interrupted. *)
Definition interrupted (extract_path : string) (ms : list (string * content))
    (fault : option nat) (partial : option content) (k : nat) (t : tree) : tree :=
  let written := write_all extract_path (take k ms) t in
  match fault, ms !! k with
  | Some j, Some m =>
      if (j =? k)%nat then leave_partial extract_path m partial written else written
  | _, _ => written
  end.

(** The folder [extractall] leaves, whether it returns or raises. *)
Definition extractall_leaves (extract_path : string) (a : archive) (t : tree) : tree :=
  match raise_index (extract_list a) (zip_fault a) with
  | Some k => interrupted extract_path (extract_list a) (zip_fault a) (zip_partial a) k t
  | None => write_all extract_path (extract_list a) t
  end.

(** The folder after one iteration of the loop on [item], [t] being the
    folder before it. *)
Definition item_files (w : world) (extract_path item : string) (t : tree) : tree :=
  match stat w item with
  | Some (File a) => if passes_checks a then extractall_leaves extract_path a t else t
  | _ => t
  end.

(** What one iteration of the loop on [item] adds to the counter. *)
Definition item_count (w : world) (item : string) : nat :=
  match stat w item with
  | Some (File a) => if valid a then length (file_entries a) else 0
  | _ => 0
  end.

(** What processing one item adds to the trace. *)
Definition item_trace (w : world) (directory extract_path item : string) : list event :=
  trace (snd (process_item w directory extract_path item (initial None))).

(** ** The Archive Locator as a function of the listing *)

(** The names of the entries of the target directory, in listing order. *)
Definition names_of (w : world) : list string := map fst (listing w).

(** Method 1: the regular files with a [.zip] name, any case. *)
Definition method1 (w : world) : list string :=
  List.filter (fun item => os_path_isfile w item && is_zip_name item) (names_of w).

(** The directory part of the pattern [glob] is given. *)
Definition glob_dirname (directory : string) : string :=
  Path.dirname (Path.join directory "*.zip").

(** Method 2: the paths [glob] matches against [*.zip]. *)
Definition method2 (w : world) (directory : string) : list string :=
  if Str.has_magic (glob_dirname directory) then glob_elsewhere w
  else map (Path.join (glob_dirname directory)) (List.filter glob_match_zip (names_of w)).

(** Method 3: every entry with a [.zip] name, any case. *)
Definition method3 (w : world) : list string :=
  List.filter is_zip_name (names_of w).

(** The list [zip_files] chosen at lines 107-118, [None] when the three
    methods find nothing. *)
Definition located (w : world) (directory : string) : option (list string) :=
  if (0 <? length (method1 w))%nat then Some (method1 w)
  else if (0 <? length (method2 w directory))%nat then
    Some (map Path.basename (method2 w directory))
  else if (0 <? length (method3 w))%nat then Some (method3 w)
  else None.

(** The messages of the checks and of the search, printed before anything
    is touched. *)
Definition is_setup (e : event) : Prop :=
  match e with
  | Print (MsgStart _) | Print (MsgNoDirectory _) | Print (MsgPermCheck _)
  | Print (MsgPermRead _) | Print (MsgPermWrite _) | Print (MsgPermExecute _)
  | Print (MsgInsufficient _) | Print MsgPleaseEnsure | Print MsgSearching
  | Print (MsgMethod1 _) | Print (MsgMethod2 _ _) | Print (MsgMethod3 _)
  | Print (MsgAllFiles _) | Print (MsgUsingMethod _ _) | Print (MsgNoZipFound _)
  | Print (MsgFound _ _) => True
  | _ => False
  end.

(** ** The merge stage and the run as functions of the folder *)

(** The pairs [os.walk] yields for a folder holding the files [t]. *)
Definition walk_files (t : tree) : list (string * string) :=
  map (fun p => (Path.dirname p, Path.basename p)) (map fst (map_to_list t)).

(** The PDF candidates of a folder, in scan order. *)
Definition candidates (t : tree) : list string := scan_pdfs (walk_files t).

(** What [merger.append(pdf)] does on the folder [t]: the exception it
    raises, if any, and the pages it adds. *)
Definition append_error (t : tree) (pdf : string) : option exn :=
  match t !! pdf with
  | Some (Pdf _ true) => None
  | Some (Pdf _ false) => Some PdfReadError
  | Some (Raw _) => Some PdfReadError
  | None => Some OSError
  end.

Definition appended_pages (t : tree) (pdf : string) : list page :=
  match t !! pdf with
  | Some (Pdf ps true) => ps
  | _ => []
  end.

Definition append_trace (t : tree) (pdf : string) : list event :=
  Print (MsgAddingPdf (Path.basename pdf)) ::
  match append_error t pdf with
  | Some e => [Print (MsgErrorAdding pdf e)]
  | None => []
  end.

(** The body of the loop of lines 56-61, and the loop. *)
Definition append_one (pdf : string) : M unit :=
  try_except (
    print (MsgAddingPdf (Path.basename pdf)) ;;
    merger_append pdf)
  any_exception (fun e =>
    print (MsgErrorAdding pdf e)).

Definition append_loop (pdf_files : list string) : M unit :=
  for_each pdf_files append_one.

(** What [merger.write] leaves in the folder [t], asked to write [pages]
    at [output_path]. *)
Definition write_outcome (w : world) (output_path : string) (pages : list page)
    (t : tree) : tree :=
  if merged_writable w then <[output_path := Pdf pages true]> t
  else
    match failed_write_leaves w with
    | Some c => <[output_path := c]> t
    | None => t
    end.

(** The state [combine_pdfs] ends in. *)
Definition combine_result (w : world) (directory : string) (st : state) : state :=
  match candidates (files_of st) with
  | [] => emit [Print MsgCombining; Print MsgNoPdf] st
  | _ :: _ =>
      let n := length (candidates (files_of st)) in
      let pdf_files := sort_paths (candidates (files_of st)) in
      let output_path := Path.join directory "merged.pdf" in
      let pages := flat_map (appended_pages (files_of st)) pdf_files in
      let attempts :=
        [Print MsgCombining; Print (MsgFoundPdf n); Acquire HMerger] ++
        flat_map (append_trace (files_of st)) pdf_files ++
        [Print (MsgWriting output_path)] in
      if merged_writable w then
        {| extraction := Some (<[output_path := Pdf pages true]> (files_of st));
           total_files_extracted := total_files_extracted st;
           merger := [];
           trace := trace st ++ attempts ++
                    [Release HMerger; Print (MsgMergedCreated output_path);
                     Print (MsgMergedFrom (length pdf_files))] |}
      else
        {| extraction :=
             match failed_write_leaves w with
             | Some c => Some (<[output_path := c]> (files_of st))
             | None => extraction st
             end;
           total_files_extracted := total_files_extracted st;
           merger := pages;
           trace := trace st ++ attempts ++
                    [Print (MsgErrorCombining OSError); Print MsgTraceback] |}
  end.

(** What [recreate_destination] adds to the trace when the folder was [old]. *)
Definition recreate_trace (extract_path : string) (old : option tree) : list event :=
  match old with
  | Some _ => [Print (MsgRemoving extract_path); Rmtree extract_path]
  | None => []
  end ++ [Makedirs extract_path; Print (MsgCreated extract_path)].

(** The state lines 176-196 end in. *)
Definition report_result (w : world) (extract_path : string) (st : state) : state :=
  let all_extracted_files :=
    map (fun rf => Path.join (fst rf) (snd rf)) (walk_files (files_of st)) in
  let reported :=
    emit ([Print (MsgTotalExtracted (length all_extracted_files));
           Print (MsgExpected (total_files_extracted st))] ++
          match all_extracted_files with
          | [] => []
          | _ :: _ => [Print (MsgSample (take 5 all_extracted_files))]
          end) st in
  let merged :=
    if pdf_merger_available w then combine_result w extract_path reported
    else emit [Print MsgMergeSkipped; Print MsgPipInstall] reported in
  emit [Print MsgBatchCompleted; Print (MsgAllExtractedTo extract_path)] merged.

(** The target directory exists and grants read, write and execute. *)
Definition setup_ok (w : world) : bool :=
  dir_exists w && (can_read w && can_write w && can_execute w).

(** The state after [recreate_destination], [es] being what the run had
    printed until then. *)
Definition prepared (extract_path : string) (old : option tree) (es : list event) : state :=
  {| extraction := Some ∅; total_files_extracted := 0; merger := [];
     trace := es ++ recreate_trace extract_path old |}.

(** The state after the extraction loop of a run that located [zs]. *)
Definition extracted (w : world) (directory : string) (old : option tree)
    (es : list event) (zs : list string) : state :=
  let extract_path := Path.join directory extraction_name in
  snd (for_each zs (process_item w directory extract_path) (prepared extract_path old es)).

(** The folder after the merge stage, as a function of the folder before. *)
Definition merged_files (w : world) (extract_path : string) (t : tree) : tree :=
  if pdf_merger_available w then
    match candidates t with
    | [] => t
    | _ :: _ =>
        write_outcome w (Path.join extract_path "merged.pdf")
          (flat_map (appended_pages t) (sort_paths (candidates t))) t
    end
  else t.

(** The folder a run that located [zs] ends with. *)
Definition extracted_files (w : world) (extract_path : string) (zs : list string) : tree :=
  fold_left (fun t i => item_files w extract_path i t) zs ∅.

Definition final_files (w : world) (directory : string) (zs : list string) : tree :=
  let extract_path := Path.join directory extraction_name in
  merged_files w extract_path (extracted_files w extract_path zs).

(** ** Traces and handles *)

(** The events that remove or create the extraction folder. *)
Definition is_reset (e : event) : Prop :=
  match e with
  | Rmtree _ | Makedirs _ => True
  | _ => False
  end.

Definition is_makedirs (e : event) : bool :=
  match e with Makedirs _ => true | _ => false end.

Definition is_rmtree (e : event) : bool :=
  match e with Rmtree _ => true | _ => false end.

(** The messages that report a skipped or failed archive. *)
Definition is_error (e : event) : Prop :=
  match e with
  | Print (MsgErrorExtracting _ _) | Print (MsgExceptionType _) | Print MsgTraceback
  | Print (MsgNotZipSkipping _) | Print MsgCorruptedSkipping => True
  | _ => False
  end.

(** ** Sample directories, and the sentences that fail *)

(** A well-formed archive holding [ms]. *)
Definition zip_of (ms : list (string * content)) : archive :=
  {| zip_bytes := 22 + length ms; zip_open := OpenOk; zip_test := TestPass;
     zip_members := ms; zip_fault := None; zip_partial := None |}.

(** A file that is not a ZIP archive (truncated, or something else). *)
Definition not_a_zip : archive :=
  {| zip_bytes := 7; zip_open := OpenBadZip; zip_test := TestPass;
     zip_members := []; zip_fault := None; zip_partial := None |}.

(** A directory one may read, write and enter, with the entries [l]. *)
Definition directory_with (l : list (string * dirent)) : world :=
  {| dir_exists := true; can_read := true; can_write := true; can_execute := true;
     listing := l; glob_elsewhere := [];
     pdf_merger_available := true; merged_writable := true;
     failed_write_leaves := None |}.

(** [a.zip] valid, [b.zip] corrupt, [c.zip] valid. *)
Definition abc_world : world :=
  directory_with
    [("a.zip", File (zip_of [("docs/", Raw ""); ("docs/a.pdf", Pdf [1; 2] true);
                             ("a.txt", Raw "from a")]));
     ("b.zip", File not_a_zip);
     ("c.zip", File (zip_of [("c.pdf", Pdf [3] true); ("c.txt", Raw "from c")]))].

(** A directory that holds no archive. *)
Definition no_zip_world : world :=
  directory_with [("notes.txt", File not_a_zip); ("photos", SubDir 96)].

(** What an earlier run left in the extraction folder. *)
Definition stale : tree := {[ "/d/combined_extraction/old.txt" := Raw "old" ]}.

(** The property as the specification words it, for one run: the folder is
    created exactly once, and what the run ends with does not depend on what
    the folder held before. *)
Definition run_rebuilds_destination (w : world) (directory : string) (old : option tree) : Prop :=
  length (List.filter is_makedirs (trace (snd (run w directory old)))) = 1 /\
  extraction (snd (run w directory old)) = extraction (snd (run w directory None)).

(** An archive whose third member cannot be written to the end: the copy
    stops on an I/O error and leaves the file empty. *)
Definition faulty_zip : archive :=
  {| zip_bytes := 300; zip_open := OpenOk; zip_test := TestPass;
     zip_members := [("one.txt", Raw "1"); ("two.txt", Raw "2"); ("three.txt", Raw "3")];
     zip_fault := Some 2; zip_partial := Some (Raw "") |}.

Definition faulty_world : world :=
  directory_with [("f.zip", File faulty_zip);
                  ("g.zip", File (zip_of [("g.txt", Raw "g")]))].

(** The property as the specification words it: of two valid archives that hold
    the same path, the one whose name sorts later gives the path its content
    at the end of the extraction. *)
Definition later_in_sort_order_wins (w : world) (directory : string) : Prop :=
  forall zs a b A B p cA cB,
    located w directory = Some zs ->
    In a zs -> In b zs ->
    stat w a = Some (File A) -> stat w b = Some (File B) ->
    valid A = true -> valid B = true ->
    In (p, cA) (zip_members A) -> In (p, cB) (zip_members B) ->
    String.ltb a b = true ->
    extracted_files w (Path.join directory extraction_name) zs
      !! member_path (Path.join directory extraction_name) p = Some cB.

(** A directory that [os.listdir] reports as [b.zip], then [a.zip]. *)
Definition unsorted_world : world :=
  directory_with
    [("b.zip", File (zip_of [("x.txt", Raw "from b")]));
     ("a.zip", File (zip_of [("x.txt", Raw "from a")]))].

(** The file entries of the archive an item names. *)
Definition entries_at (w : world) (item : string) : list string :=
  match stat w item with
  | Some (File a) => file_entries a
  | _ => []
  end.

(** The property as the specification words it, for one run: when every
    located archive is a well-formed ZIP that passes [testzip] and no two of
    their file entries are extracted under one name, the counter ends as the
    number of those entries. *)
Definition count_is_sum_of_entries (w : world) (directory : string)
    (old : option tree) : Prop :=
  forall zs,
    located w directory = Some zs ->
    (forall i, In i zs -> exists a, stat w i = Some (File a) /\ passes_checks a = true) ->
    NoDup (map arcname (flat_map (entries_at w) zs)) ->
    total_files_extracted (snd (run w directory old)) =
      sum_list_with (fun i => length (entries_at w i)) zs.

(** Two well-formed archives with distinct entries, [report] in the first
    and [report/notes.txt] in the second. The second cannot be extracted:
    the directory [report] it needs is a file by then, so that [extractall]
    raises at its first member and leaves nothing of it. *)
Definition nested_world : world :=
  directory_with
    [("first.zip", File (zip_of [("report", Raw "text")]));
     ("second.zip",
      File {| zip_bytes := 140; zip_open := OpenOk; zip_test := TestPass;
              zip_members := [("report/notes.txt", Raw "notes")];
              zip_fault := Some 0; zip_partial := None |})].

(** Two valid archives with distinct entries. *)
Definition ac_world : world :=
  directory_with
    [("a.zip", File (zip_of [("docs/", Raw ""); ("docs/a.pdf", Pdf [1; 2] true);
                             ("a.txt", Raw "from a")]));
     ("c.zip", File (zip_of [("c.pdf", Pdf [3] true); ("c.txt", Raw "from c")]))].

(** The page count of the file at a path (0 when there is none). *)
Definition page_count_at (t : tree) (pdf : string) : nat :=
  match t !! pdf with
  | Some c => page_count c
  | None => 0
  end.

(** The property as the specification words it, for one folder: without
    candidates nothing is created; otherwise the merged document has as many
    pages as all the candidates together. *)
Definition merged_counts_every_candidate (w : world) (directory : string) (st : state) : Prop :=
  let t := files_of st in
  match candidates t with
  | [] => files_of (snd (combine_pdfs w directory st)) = t
  | _ :: _ =>
      exists doc,
        files_of (snd (combine_pdfs w directory st)) !! Path.join directory "merged.pdf"
          = Some doc /\
        page_count doc = sum_list_with (page_count_at t) (candidates t)
  end.

(** A folder with a two-page PDF and a one-page PDF that cannot be read. *)
Definition locked_folder : state :=
  initial (Some (list_to_map
    [("/d/combined_extraction/open.pdf", Pdf [1; 2] true);
     ("/d/combined_extraction/locked.pdf", Pdf [3] false)])).

(** The property as the specification words it, for one folder: if
    [merged.pdf] is there after lines 176-196, then merging ran and some
    candidate was appended successfully. *)
Definition merged_only_if_one_appended (w : world) (extract_path : string) (st : state) : Prop :=
  let t := files_of st in
  is_Some (files_of (snd (report_and_merge w extract_path st))
             !! Path.join extract_path "merged.pdf") ->
  pdf_merger_available w = true /\
  exists p, In p (candidates t) /\ append_error t p = None.

(** A folder whose only PDF is corrupt. *)
Definition junk_folder : state :=
  initial (Some {[ "/d/combined_extraction/junk.pdf" := Raw "junk" ]}).

Definition handle_eqb (h1 h2 : handle) : bool :=
  match h1, h2 with
  | HZip p, HZip q => String.eqb p q
  | HMerger, HMerger => true
  | _, _ => false
  end.

(** One handle [h] taken out of those held. *)
Fixpoint release_one (h : handle) (held : list handle) : list handle :=
  match held with
  | [] => []
  | x :: held' => if handle_eqb h x then held' else x :: release_one h held'
  end.

(** The handles still open after a trace, [held] being open before it. *)
Fixpoint outstanding (tr : list event) (held : list handle) : list handle :=
  match tr with
  | [] => held
  | Acquire h :: tr' => outstanding tr' (h :: held)
  | Release h :: tr' => outstanding tr' (release_one h held)
  | _ :: tr' => outstanding tr' held
  end.

(** An archive with one PDF, in a directory where [merged.pdf] cannot be
    written (the disk is full): the write raises and leaves an empty
    file. *)
Definition unwritable_world : world :=
  {| dir_exists := true; can_read := true; can_write := true; can_execute := true;
     listing := [("a.zip", File (zip_of [("a.pdf", Pdf [1; 2] true)]))];
     glob_elsewhere := [];
     pdf_merger_available := true; merged_writable := false;
     failed_write_leaves := Some (Raw "") |}.

(** The property as the specification words it, for one directory: what the
    locator returns is exactly the regular files of the listing with a
    [.zip] name. *)
Definition locator_returns_exactly_zip_files (w : world) (directory : string) : Prop :=
  forall st zs,
    fst (locate_zip_files w directory st) = Normal zs ->
    forall n, In n zs <->
      In n (names_of w) /\ os_path_isfile w n = true /\ is_zip_name n = true.

(** A directory whose only [.zip] name is a subdirectory. *)
Definition zip_dir_world : world :=
  directory_with [("data.zip", SubDir 64); ("readme.txt", File not_a_zip)].

(** ** The rest of the script *)

(** The path a [Processing] message names. *)
Definition processing_path (e : event) : option string :=
  match e with
  | Print (MsgProcessing p) => Some p
  | _ => None
  end.

(** The events that open or close a handle. *)
Definition is_handle_event (e : event) : Prop :=
  match e with
  | Acquire _ | Release _ => True
  | _ => False
  end.

(** The archives of [abc_world] in a directory where PyPDF2 is missing. *)
Definition no_merger_world : world :=
  {| dir_exists := true; can_read := true; can_write := true; can_execute := true;
     listing := listing abc_world; glob_elsewhere := [];
     pdf_merger_available := false; merged_writable := true;
     failed_write_leaves := None |}.

(** ['//' in s] *)
Fixpoint double_slash (s : string) : bool :=
  match s with
  | String a (String b _ as s') =>
      (Ascii.eqb a "/" && Ascii.eqb b "/") || double_slash s'
  | _ => false
  end.

(** What the script prints outside [batch_unzip]: the two lines of the
    failed import, the Python version, where to verify the extraction, and
    where the combined PDF is. *)
Inductive top_msg :=
| MsgPyPDF2NotFound
| MsgPyPDF2Hint
| MsgPythonVersion (version : string)
| MsgToVerify (path : string)
| MsgCombinedAvailable (path : string).

(** Line 199. *)
Definition directory_path : string := "/Users/cenghongyi/Downloads/WB9".

(** [os.path.join(a, b, c)] *)
Definition join3 (a b c : string) : string := Path.join (Path.join a b) c.

(** The module from its first line to its last: the import of lines 8-14,
    whose outcome is the flag [pdf_merger_available]; then lines 198-204.
    The result is what is printed before the call of [batch_unzip], the
    outcome and state of the call, and what is printed after it (nothing
    when the call raises, which ends the script). *)
Definition script (w : world) (version : string) (old : option tree)
    : list top_msg * (outcome unit * state) * list top_msg :=
  let at_import :=
    if pdf_merger_available w then [] else [MsgPyPDF2NotFound; MsgPyPDF2Hint] in
  let r := batch_unzip w directory_path (initial old) in
  (at_import ++ [MsgPythonVersion version],
   r,
   match fst r with
   | Normal _ =>
       MsgToVerify (Path.join directory_path "combined_extraction") ::
       (if pdf_merger_available w then
          [MsgCombinedAvailable (join3 directory_path "combined_extraction" "merged.pdf")]
        else [])
   | _ => []
   end).

(** * Properties *)

(** ** Python string methods, on examples *)

Example lower_zip : Str.lower "Report.ZIP" = "report.zip".
Proof. reflexivity. Qed.

Example endswith_zip : Str.endswith ".zip" (Str.lower "Report.ZIP") = true.
Proof. reflexivity. Qed.

Example basename_ex : Path.basename "/tmp/x/a.pdf" = "a.pdf".
Proof. reflexivity. Qed.

(** ** What one archive does to the extraction folder and to the counter *)

#[local] Arguments Nat.ltb : simpl never.
#[local] Arguments Nat.leb : simpl never.

Lemma extract_members_spec extract_path ms fault partial t :
  extract_members extract_path ms fault partial t =
  match raise_index ms fault with
  | Some k => (Some OSError, interrupted extract_path ms fault partial k t)
  | None => (None, write_all extract_path ms t)
  end.
Proof.
  revert fault t. induction ms as [|m ms IH]; intros fault t; [reflexivity|].
  cbn [extract_members raise_index].
  destruct fault as [[|j]|]; [reflexivity| |];
    (destruct (unnamed_file m); [reflexivity|]);
    cbn [fmap option_fmap option_map Nat.pred]; rewrite IH.
  - destruct (raise_index ms (Some j)); reflexivity.
  - destruct (raise_index ms None); reflexivity.
Qed.

Lemma emit_app es1 es2 st : emit es2 (emit es1 st) = emit (es1 ++ es2) st.
Proof. unfold emit; cbn. by rewrite <- app_assoc. Qed.

Lemma files_of_emit es st : files_of (emit es st) = files_of st.
Proof. reflexivity. Qed.

Lemma process_item_spec w directory extract_path item st :
  let r := process_item w directory extract_path item st in
  (fst r = Normal tt \/ fst r = Continue) /\
  files_of (snd r) = item_files w extract_path item (files_of st) /\
  (is_Some (extraction st) -> is_Some (extraction (snd r))) /\
  total_files_extracted (snd r) = total_files_extracted st + item_count w item /\
  merger (snd r) = merger st /\
  trace (snd r) = trace st ++ item_trace w directory extract_path item.
Proof.
  unfold item_trace, item_files, item_count, valid, passes_checks, fault_strikes,
    extractall_leaves, file_entries, process_item, with_zipfile, os_path_getsize,
    os_path_exists, testzip, extractall, try_except, with_handle, bind, print, modify.
  destruct (stat w item) as [[a|n]|]; cbn;
    [ generalize (namelist a); intros fl;
      destruct (zip_open a), (zip_test a), fl; cbn;
      rewrite ?extract_members_spec;
      destruct (raise_index (extract_list a) (zip_fault a)) as [k|]; cbn | | ];
    rewrite <- ?app_assoc; cbn; repeat split; eauto; lia.
Qed.

(** The loop of lines 134-174 over the located archives. *)
Lemma for_each_items w directory extract_path zs st :
  let r := for_each zs (process_item w directory extract_path) st in
  fst r = Normal tt /\
  files_of (snd r) = fold_left (fun t i => item_files w extract_path i t) zs (files_of st) /\
  (is_Some (extraction st) -> is_Some (extraction (snd r))) /\
  total_files_extracted (snd r) =
    total_files_extracted st + sum_list_with (item_count w) zs /\
  merger (snd r) = merger st /\
  trace (snd r) = trace st ++ concat (map (item_trace w directory extract_path) zs).
Proof.
  revert st. induction zs as [|z zs IH]; intros st; cbn.
  - rewrite app_nil_r. repeat split; eauto.
  - pose proof (process_item_spec w directory extract_path z st) as H.
    cbn in H. destruct H as (Ho & Hf & Hx & Ht & Hm & Htr).
    destruct (process_item w directory extract_path z st) as [o st1]; cbn in *.
    specialize (IH st1). cbn in IH. destruct IH as (Io & If & Ix & It & Im & Itr).
    assert (Hloop : (match o with
                     | Normal _ | Continue => for_each zs (process_item w directory extract_path) st1
                     | Raise e => (Raise e, st1)
                     | Return => (Return, st1)
                     end) = for_each zs (process_item w directory extract_path) st1).
    { destruct Ho as [-> | ->]; reflexivity. }
    rewrite Hloop, Io, If, It, Im, Itr, Hf, Ht, Hm, Htr.
    rewrite <- app_assoc. repeat split; eauto; lia.
Qed.

(** ** The Archive Locator as a function of the listing *)

Lemma locate_zip_files_spec w directory st :
  exists es,
    Forall is_setup es /\
    locate_zip_files w directory st =
      (match located w directory with Some zs => Normal zs | None => Return end,
       emit es st) /\
    (located w directory = None ->
     exists es', es = es' ++ [Print (MsgNoZipFound directory)]).
Proof.
  unfold locate_zip_files, located, method1, method2, method3, glob_glob_zip,
    glob_dirname, os_listdir, bind, get, ret, print, modify.
  set (extra := match extraction st with Some _ => [extraction_name] | None => [] end).
  assert (E1 : forall f, f extraction_name = false ->
            List.filter f (names_of w ++ extra) = List.filter f (names_of w)).
  { intros f Hf. rewrite List.filter_app. subst extra.
    destruct (extraction st); cbn; rewrite ?Hf, ?app_nil_r; reflexivity. }
  fold (names_of w).
  destruct (Str.has_magic (Path.dirname (Path.join directory "*.zip")));
    rewrite !E1 by (try reflexivity; apply andb_false_r);
    (destruct (0 <? length (List.filter _ (names_of w)))%nat;
     [ eexists; rewrite !emit_app; split; [|split; [reflexivity | discriminate]];
       repeat constructor |]).
  - destruct (0 <? length (glob_elsewhere w))%nat.
    { eexists. rewrite !emit_app. split; [|split; [reflexivity | discriminate]].
      repeat constructor. }
    destruct (0 <? length (List.filter _ _))%nat.
    { eexists. rewrite !emit_app. split; [|split; [reflexivity | discriminate]].
      repeat constructor. }
    eexists. rewrite !emit_app. split; [|split; [reflexivity | intros _]].
    + repeat constructor.
    + eexists [_; _; _; _; _]. reflexivity.
  - destruct (0 <? length (map _ _))%nat.
    { eexists. rewrite !emit_app. split; [|split; [reflexivity | discriminate]].
      repeat constructor. }
    destruct (0 <? length (List.filter _ _))%nat.
    { eexists. rewrite !emit_app. split; [|split; [reflexivity | discriminate]].
      repeat constructor. }
    eexists. rewrite !emit_app. split; [|split; [reflexivity | intros _]].
    + repeat constructor.
    + eexists [_; _; _; _; _]. reflexivity.
Qed.

(** ** The merge stage as a function of the extraction folder *)

Lemma append_one_spec pdf st :
  append_one pdf st =
  (Normal tt,
   {| extraction := extraction st;
      total_files_extracted := total_files_extracted st;
      merger := merger st ++ appended_pages (files_of st) pdf;
      trace := trace st ++ append_trace (files_of st) pdf |}).
Proof.
  unfold append_one, try_except, bind, print, modify, merger_append, get,
    append_trace, append_error, appended_pages.
  cbn -[files_of lookup]. rewrite files_of_emit.
  destruct (files_of st !! pdf) as [[b|ps [|]]|]; unfold emit, set_merger; cbn;
    rewrite <- ?app_assoc, ?app_nil_r; reflexivity.
Qed.

Lemma append_loop_spec pdf_files st :
  append_loop pdf_files st =
  (Normal tt,
   {| extraction := extraction st;
      total_files_extracted := total_files_extracted st;
      merger := merger st ++ flat_map (appended_pages (files_of st)) pdf_files;
      trace := trace st ++ flat_map (append_trace (files_of st)) pdf_files |}).
Proof.
  unfold append_loop. revert st.
  induction pdf_files as [|pdf l IH]; intros st.
  - cbn. rewrite !app_nil_r. by destruct st.
  - cbn [for_each flat_map]. rewrite append_one_spec, IH.
    unfold files_of; cbn. rewrite <- !app_assoc. reflexivity.
Qed.

Lemma combine_pdfs_spec w directory st :
  combine_pdfs w directory st = (Normal tt, combine_result w directory st).
Proof.
  unfold combine_pdfs, combine_result, def_, os_walk.
  fold append_one. fold (append_loop).
  cbn -[files_of scan_pdfs sort_paths Path.join Path.dirname Path.basename
        map_to_list append_loop].
  rewrite !files_of_emit. fold (walk_files (files_of st)).
  fold (candidates (files_of st)).
  destruct (candidates (files_of st)) as [|c cs] eqn:Ec.
  - cbn. unfold emit; cbn. rewrite <- app_assoc. reflexivity.
  - unfold try_except, bind, print, modify, new_PdfMerger, merger_write, merger_close.
    cbn -[files_of scan_pdfs sort_paths Path.join Path.dirname Path.basename
          append_loop].
    pose proof append_loop_spec as Hloop. unfold append_loop in Hloop.
    rewrite Hloop. clear Hloop.
    cbn -[files_of scan_pdfs sort_paths Path.join Path.dirname Path.basename].
    destruct (merged_writable w); [|destruct (failed_write_leaves w)];
      cbn -[files_of scan_pdfs sort_paths Path.join Path.dirname Path.basename];
      unfold files_of, emit, set_merger, set_extraction;
      cbn -[scan_pdfs sort_paths Path.join Path.dirname Path.basename];
      rewrite <- ?app_assoc; cbn -[scan_pdfs sort_paths Path.join Path.dirname Path.basename];
      reflexivity.
Qed.

(** ** A run, phase by phase *)

Lemma recreate_destination_spec extract_path st :
  recreate_destination extract_path st =
  (Normal tt,
   {| extraction := Some ∅;
      total_files_extracted := 0;
      merger := merger st;
      trace := trace st ++ recreate_trace extract_path (extraction st) |}).
Proof.
  unfold recreate_destination, recreate_trace, extract_path_exists, shutil_rmtree,
    os_makedirs, bind, get, ret, print, modify.
  destruct st as [[t|] n m tr]; cbn;
    unfold emit, set_total, set_extraction; cbn; rewrite <- ?app_assoc; reflexivity.
Qed.

Lemma emit_nil st : emit [] st = st.
Proof. destruct st. unfold emit; cbn. by rewrite app_nil_r. Qed.

Lemma report_and_merge_spec w extract_path st :
  report_and_merge w extract_path st = (Normal tt, report_result w extract_path st).
Proof.
  unfold report_and_merge, report_result, os_walk.
  cbn -[files_of Path.join Path.dirname Path.basename map_to_list combine_pdfs take].
  fold (walk_files (files_of st)).
  set (all := map _ (walk_files (files_of st))).
  assert (E : forall st0,
    (match all with
     | [] => ret tt
     | _ :: _ => print (MsgSample (take 5 all))
     end) st0 =
    (Normal tt, emit match all with [] => [] | _ :: _ => [Print (MsgSample (take 5 all))] end st0)).
  { intros st0. destruct all; [by rewrite emit_nil | reflexivity]. }
  unfold bind at 1. rewrite E. rewrite !emit_app. cbn [app].
  destruct (pdf_merger_available w).
  - unfold bind at 1. rewrite combine_pdfs_spec.
    unfold bind, print, modify. rewrite !emit_app. reflexivity.
  - unfold bind, print, modify. rewrite !emit_app.
    cbn [app]. rewrite <- ?app_assoc. reflexivity.
Qed.

Lemma prepared_eq extract_path old es :
  {| extraction := Some ∅; total_files_extracted := 0;
     merger := merger (emit es (initial old));
     trace := trace (emit es (initial old)) ++
              recreate_trace extract_path (extraction (emit es (initial old))) |} =
  prepared extract_path old es.
Proof. reflexivity. Qed.

Lemma run_located w directory old zs :
  setup_ok w = true ->
  located w directory = Some zs ->
  exists es,
    Forall is_setup es /\
    run w directory old =
      (Normal tt,
       report_result w (Path.join directory extraction_name)
         (extracted w directory old es zs)).
Proof.
  unfold setup_ok. intros Hs Hl.
  apply andb_prop in Hs as [He Hp].
  unfold run, batch_unzip, def_, check_permissions, extracted.
  set (extract_path := Path.join directory extraction_name).
  unfold bind at 1, print at 1, modify at 1. rewrite He.
  cbn [negb]. unfold bind at 1 2 3 4 5, print at 1 2 3 4, modify at 1 2 3 4, ret at 1.
  rewrite Hp. cbn [negb]. unfold bind at 1.
  match goal with
  | |- context [locate_zip_files w directory ?s] =>
      destruct (locate_zip_files_spec w directory s) as (es & Hes & Heq & _)
  end.
  rewrite Heq, Hl.
  unfold bind at 1, print at 1, modify at 1.
  unfold bind at 1. rewrite recreate_destination_spec.
  unfold bind at 1.
  rewrite !emit_app, prepared_eq.
  match goal with
  | |- context [prepared extract_path old ?X] => exists X
  end.
  split.
  - repeat (apply Forall_app; split); try assumption; repeat constructor.
  - match goal with
    | |- context [for_each zs ?b ?s] =>
        pose proof (for_each_items w directory extract_path zs s) as Hloop;
        cbn zeta in Hloop; destruct Hloop as (Ho & _);
        destruct (for_each zs b s) as [o st1]
    end.
    cbn [fst] in Ho. subst o. cbn [snd].
    rewrite report_and_merge_spec. reflexivity.
Qed.

Lemma extraction_files_of st t :
  is_Some (extraction st) -> files_of st = t -> extraction st = Some t.
Proof. unfold files_of. intros [t' ->] <-. reflexivity. Qed.

Lemma combine_result_extraction w directory st :
  is_Some (extraction st) ->
  extraction (combine_result w directory st) =
  Some (match candidates (files_of st) with
        | [] => files_of st
        | _ :: _ =>
            write_outcome w (Path.join directory "merged.pdf")
              (flat_map (appended_pages (files_of st))
                 (sort_paths (candidates (files_of st)))) (files_of st)
        end).
Proof.
  intros [t Ht]. unfold combine_result, write_outcome.
  destruct (candidates (files_of st)).
  - cbn. unfold files_of. by rewrite Ht.
  - destruct (merged_writable w); cbn; [reflexivity|].
    destruct (failed_write_leaves w); [reflexivity|].
    unfold files_of. by rewrite Ht.
Qed.

Lemma report_result_extraction w extract_path st :
  is_Some (extraction st) ->
  extraction (report_result w extract_path st) =
  Some (merged_files w extract_path (files_of st)).
Proof.
  intros Hs. unfold report_result, merged_files.
  cbn [emit extraction].
  destruct (pdf_merger_available w).
  - rewrite combine_result_extraction by exact Hs. reflexivity.
  - cbn. by apply extraction_files_of.
Qed.

Lemma report_result_total w extract_path st :
  total_files_extracted (report_result w extract_path st) = total_files_extracted st.
Proof.
  unfold report_result, combine_result. cbn [emit total_files_extracted].
  destruct (pdf_merger_available w); [|reflexivity].
  rewrite files_of_emit. destruct (candidates (files_of st)); [reflexivity|].
  destruct (merged_writable w); reflexivity.
Qed.

Lemma extracted_spec w directory old es zs :
  let extract_path := Path.join directory extraction_name in
  extraction (extracted w directory old es zs) =
    Some (extracted_files w extract_path zs) /\
  total_files_extracted (extracted w directory old es zs) =
    sum_list_with (item_count w) zs /\
  trace (extracted w directory old es zs) =
    es ++ recreate_trace extract_path old ++
    concat (map (item_trace w directory extract_path) zs).
Proof.
  intros extract_path. unfold extracted. fold extract_path.
  pose proof (for_each_items w directory extract_path zs
                (prepared extract_path old es)) as H.
  cbn zeta in H. destruct H as (_ & Hf & Hx & Ht & _ & Htr).
  split; [|split].
  - apply extraction_files_of; [apply Hx; cbn; eauto | exact Hf].
  - rewrite Ht. reflexivity.
  - rewrite Htr. cbn [prepared trace]. by rewrite <- app_assoc.
Qed.

(** The folder a run ends with does not depend on what the folder held
    when the run started. *)
Lemma run_files w directory old zs :
  setup_ok w = true ->
  located w directory = Some zs ->
  fst (run w directory old) = Normal tt /\
  extraction (snd (run w directory old)) = Some (final_files w directory zs) /\
  total_files_extracted (snd (run w directory old)) = sum_list_with (item_count w) zs.
Proof.
  intros Hs Hl.
  destruct (run_located w directory old zs Hs Hl) as (es & _ & ->).
  pose proof (extracted_spec w directory old es zs) as H. cbn zeta in H.
  destruct H as (Hx & Ht & _).
  cbn [fst snd]. split; [reflexivity|split].
  - rewrite report_result_extraction by (rewrite Hx; eauto).
    unfold final_files, files_of. by rewrite Hx.
  - by rewrite report_result_total.
Qed.

(** ** Traces *)

Ltac item_cases w item a :=
  unfold item_trace, process_item, with_zipfile, os_path_getsize, os_path_exists,
    testzip, extractall, try_except, with_handle, bind, print, modify;
  destruct (stat w item) as [[a|?]|]; cbn;
    [ generalize (namelist a); intros fl;
      destruct (zip_open a), (zip_test a), fl; cbn;
      rewrite ?extract_members_spec;
      destruct (raise_index (extract_list a) (zip_fault a)) as [k|]; cbn | | ].

Lemma item_trace_head w directory extract_path item :
  exists rest,
    item_trace w directory extract_path item =
    Print (MsgProcessing (Path.join directory item)) :: rest.
Proof. item_cases w item a; eexists; reflexivity. Qed.

Lemma item_trace_no_reset w directory extract_path item :
  Forall (fun e => ~ is_reset e) (item_trace w directory extract_path item).
Proof. item_cases w item a; repeat constructor; cbn; tauto. Qed.

Lemma items_trace_no_reset w directory extract_path zs :
  Forall (fun e => ~ is_reset e)
    (concat (map (item_trace w directory extract_path) zs)).
Proof.
  apply Forall_concat, Forall_map, Forall_forall. intros z _.
  apply item_trace_no_reset.
Qed.

Lemma append_traces_no_reset t l :
  Forall (fun e => ~ is_reset e) (flat_map (append_trace t) l).
Proof.
  induction l as [|p l IH]; cbn [flat_map]; [constructor|].
  apply Forall_app; split; [|exact IH].
  unfold append_trace. destruct (append_error t p); repeat constructor; cbn; tauto.
Qed.

Lemma combine_result_trace w directory st :
  exists es,
    trace (combine_result w directory st) = trace st ++ es /\
    Forall (fun e => ~ is_reset e) es.
Proof.
  unfold combine_result.
  destruct (candidates (files_of st)) as [|c cs].
  - eexists; split; [reflexivity|]. repeat constructor; cbn; tauto.
  - destruct (merged_writable w); eexists; (split; [reflexivity|]);
      repeat (apply Forall_app; split); try apply append_traces_no_reset;
      repeat constructor; cbn; tauto.
Qed.

Lemma length_walk_files t : length (walk_files t) = length (map_to_list t).
Proof. unfold walk_files. by rewrite !length_map. Qed.

(** What lines 176-196 print first, and that they leave the folder alone
    but for the merged document. *)
Lemma report_result_trace w extract_path st :
  exists rest,
    trace (report_result w extract_path st) =
      trace st ++
      Print (MsgTotalExtracted (length (map_to_list (files_of st)))) ::
      Print (MsgExpected (total_files_extracted st)) :: rest /\
    Forall (fun e => ~ is_reset e) rest.
Proof.
  unfold report_result. cbn [emit trace].
  rewrite length_map, length_walk_files.
  set (sample := match map _ (walk_files (files_of st)) with [] => [] | _ :: _ => _ end).
  assert (Hs : Forall (fun e => ~ is_reset e) sample).
  { subst sample. destruct (map _ _); repeat constructor; cbn; tauto. }
  destruct (pdf_merger_available w).
  - match goal with
    | |- context [combine_result w extract_path ?s] =>
        destruct (combine_result_trace w extract_path s) as (es & -> & Hes)
    end.
    cbn [emit trace app]. eexists. rewrite <- !app_assoc. cbn [app].
    split; [reflexivity|].
    repeat (apply Forall_app; split); try assumption; repeat constructor; cbn; tauto.
  - cbn [emit trace app]. eexists. rewrite <- !app_assoc. cbn [app].
    split; [reflexivity|].
    repeat (apply Forall_app; split); try assumption; repeat constructor; cbn; tauto.
Qed.

(** ** Fatal setup errors *)

Lemma run_aborts w directory old :
  dir_exists w = false \/
  can_read w && can_write w && can_execute w = false \/
  located w directory = None ->
  exists es m,
    run w directory old = (Normal tt, emit (es ++ [Print m]) (initial old)) /\
    Forall is_setup es /\
    (m = MsgNoDirectory directory \/ m = MsgPleaseEnsure \/
     m = MsgNoZipFound directory).
Proof.
  intros H. unfold run, batch_unzip, def_, check_permissions.
  unfold bind at 1, print at 1, modify at 1.
  destruct (dir_exists w) eqn:He; cbn [negb].
  2:{ exists [Print (MsgStart directory)], (MsgNoDirectory directory).
      cbn. repeat split; eauto; repeat constructor. }
  unfold bind at 1 2 3 4 5, print at 1 2 3 4, modify at 1 2 3 4, ret at 1.
  destruct (can_read w && can_write w && can_execute w) eqn:Hp; cbn [negb].
  2:{ eexists [_; _; _; _; _; _], MsgPleaseEnsure.
      cbn. repeat split; eauto; repeat constructor. }
  destruct H as [H | [H | H]]; try discriminate.
  unfold bind at 1.
  match goal with
  | |- context [locate_zip_files w directory ?s] =>
      destruct (locate_zip_files_spec w directory s) as (es & Hes & Heq & Hlast)
  end.
  destruct (Hlast H) as (es' & ->). rewrite Heq, H.
  apply Forall_app in Hes as [Hes _].
  exists ([Print (MsgStart directory); Print (MsgPermCheck directory);
           Print (MsgPermRead (can_read w)); Print (MsgPermWrite (can_write w));
           Print (MsgPermExecute (can_execute w))] ++ es'),
         (MsgNoZipFound directory).
  rewrite !emit_app. split; [|split].
  - f_equal; f_equal; rewrite <- ?app_assoc; reflexivity.
  - apply Forall_app; split; [repeat constructor | exact Hes].
  - auto.
Qed.

(** C7. When the target directory is missing, or lacks read, write or
    execute permission, or the three searches find no archive, the run ends
    normally having printed only messages of the checks and of the search,
    the last of which names the fatal condition; the extraction folder is
    what it was before the run (absent if it was absent), and nothing was
    removed, created, opened or processed. *)
Theorem fatal_setup_aborts_without_side_effects w directory old :
  dir_exists w = false \/
  can_read w && can_write w && can_execute w = false \/
  located w directory = None ->
  exists es m,
    fst (run w directory old) = Normal tt /\
    extraction (snd (run w directory old)) = old /\
    total_files_extracted (snd (run w directory old)) = 0 /\
    trace (snd (run w directory old)) = es ++ [Print m] /\
    Forall is_setup es /\
    (m = MsgNoDirectory directory \/ m = MsgPleaseEnsure \/
     m = MsgNoZipFound directory).
Proof.
  intros H. destruct (run_aborts w directory old H) as (es & m & -> & Hes & Hm).
  exists es, m. cbn. repeat split; assumption.
Qed.

Lemma fatal_setup_witness :
  located no_zip_world "/d" = None /\
  exists es m,
    fst (run no_zip_world "/d" (Some stale)) = Normal tt /\
    extraction (snd (run no_zip_world "/d" (Some stale))) = Some stale /\
    total_files_extracted (snd (run no_zip_world "/d" (Some stale))) = 0 /\
    trace (snd (run no_zip_world "/d" (Some stale))) = es ++ [Print m] /\
    Forall is_setup es /\
    (m = MsgNoDirectory "/d" \/ m = MsgPleaseEnsure \/ m = MsgNoZipFound "/d").
Proof.
  split; [vm_compute; reflexivity|].
  apply (fatal_setup_aborts_without_side_effects no_zip_world "/d" (Some stale)).
  right. right. vm_compute. reflexivity.
Defined.

(** ** The extraction folder is rebuilt *)

(** C3, as stated, fails for a run that aborts at setup: the folder is not
    touched, and what an earlier run left in it is still there. *)
Lemma run_rebuilds_destination_fails :
  ~ run_rebuilds_destination no_zip_world "/d" (Some stale).
Proof.
  assert (E : length (List.filter is_makedirs
                        (trace (snd (run no_zip_world "/d" (Some stale))))) = 0)
    by (vm_compute; reflexivity).
  intros [H _]. rewrite E in H. discriminate H.
Qed.

(** C3, amended. In every run that passes the setup checks and locates archives, the
    trace is: messages of the checks and of the search, then the folder
    removed (only when it existed) and created, then events none of which
    removes or creates the folder. So the folder is created exactly once and
    removed at most once, before any archive is processed; and the folder the
    run ends with is the one a run starting without any folder ends with. *)
Theorem destination_recreated_once w directory old zs :
  setup_ok w = true ->
  located w directory = Some zs ->
  let extract_path := Path.join directory extraction_name in
  let tr := trace (snd (run w directory old)) in
  (exists before after,
     tr = before ++ recreate_trace extract_path old ++ after /\
     Forall is_setup before /\
     Forall (fun e => ~ is_reset e) after) /\
  length (List.filter is_makedirs tr) = 1 /\
  length (List.filter is_rmtree tr) = (match old with Some _ => 1 | None => 0 end) /\
  extraction (snd (run w directory old)) = extraction (snd (run w directory None)).
Proof.
  intros Hs Hl extract_path tr.
  assert (Hdec : exists before after,
     tr = before ++ recreate_trace extract_path old ++ after /\
     Forall is_setup before /\
     Forall (fun e => ~ is_reset e) after).
  { subst tr extract_path.
    destruct (run_located w directory old zs Hs Hl) as (es & Hes & ->).
    cbn [snd].
    destruct (report_result_trace w (Path.join directory extraction_name)
                (extracted w directory old es zs)) as (rest & -> & Hrest).
    pose proof (extracted_spec w directory old es zs) as H. cbn zeta in H.
    destruct H as (_ & _ & ->).
    exists es. eexists. rewrite <- !app_assoc. split; [reflexivity|].
    split; [exact Hes|].
    apply Forall_app; split; [apply items_trace_no_reset|].
    constructor; [cbn; tauto|]. constructor; [cbn; tauto|]. exact Hrest. }
  split; [exact Hdec|].
  destruct Hdec as (before & after & -> & Hb & Ha).
  assert (Fb : forall f : event -> bool,
            (forall e, is_setup e -> f e = false) -> List.filter f before = []).
  { intros f Hf. induction Hb as [|e l He _ IH]; [reflexivity|].
    cbn. rewrite (Hf e He). exact IH. }
  assert (Fa : forall f : event -> bool,
            (forall e, f e = true -> is_reset e) -> List.filter f after = []).
  { intros f Hf. induction Ha as [|e l He _ IH]; [reflexivity|].
    cbn. destruct (f e) eqn:E; [destruct (He (Hf e E)) | exact IH]. }
  rewrite !List.filter_app.
  rewrite !Fb, !Fa;
    try (intros [[]| | | |]; cbn; intros; try reflexivity; try tauto; discriminate).
  split; [|split].
  - unfold recreate_trace. destruct old; reflexivity.
  - unfold recreate_trace. destruct old; reflexivity.
  - destruct (run_files w directory old zs Hs Hl) as (_ & -> & _).
    destruct (run_files w directory None zs Hs Hl) as (_ & -> & _).
    reflexivity.
Qed.

Lemma destination_recreated_witness :
  setup_ok abc_world = true /\
  located abc_world "/d" = Some ["a.zip"; "b.zip"; "c.zip"] /\
  length (List.filter is_makedirs (trace (snd (run abc_world "/d" (Some stale))))) = 1 /\
  length (List.filter is_rmtree (trace (snd (run abc_world "/d" (Some stale))))) = 1 /\
  extraction (snd (run abc_world "/d" (Some stale))) =
  extraction (snd (run abc_world "/d" None)).
Proof.
  split; [reflexivity|]. split; [vm_compute; reflexivity|].
  apply (destination_recreated_once abc_world "/d" (Some stale)
           ["a.zip"; "b.zip"; "c.zip"]);
    vm_compute; reflexivity.
Defined.

(** ** Strings and paths *)

Lemma str_app_assoc (a b c : string) : ((a ++ b) ++ c = a ++ b ++ c)%string.
Proof.
  induction a as [|x a IH]; [reflexivity|].
  change (String x ((a ++ b) ++ c)%string = String x (a ++ b ++ c)%string). by f_equal.
Qed.

Lemma endswith_elim p s :
  Str.endswith p s = true -> exists pre, s = (pre ++ p)%string.
Proof.
  induction s as [|c s IH]; cbn.
  - destruct (String.eqb p "") eqn:E; [|discriminate].
    apply String.eqb_eq in E as ->. by exists "".
  - destruct (String.eqb p (String c s)) eqn:E.
    + apply String.eqb_eq in E as ->. by exists "".
    + intros H. destruct (IH H) as (pre & ->). by exists (String c pre).
Qed.

Lemma endswith_refl p : Str.endswith p p = true.
Proof. destruct p; cbn; [reflexivity|]. by rewrite Ascii.eqb_refl, String.eqb_refl. Qed.

Lemma endswith_cons p c s :
  Str.endswith p (String c s) =
  if String.eqb p (String c s) then true else Str.endswith p s.
Proof. reflexivity. Qed.

Lemma endswith_intro pre p : Str.endswith p (pre ++ p)%string = true.
Proof.
  induction pre as [|c pre IH]; [apply endswith_refl|].
  change (Str.endswith p (String c (pre ++ p)%string) = true).
  rewrite endswith_cons, IH.
  by destruct (String.eqb p (String c (pre ++ p)%string)).
Qed.

Lemma lower_app a b : Str.lower (a ++ b)%string = (Str.lower a ++ Str.lower b)%string.
Proof.
  induction a as [|c a IH]; [reflexivity|].
  change (String (Str.lower_ascii c) (Str.lower (a ++ b)%string) =
          String (Str.lower_ascii c) (Str.lower a ++ Str.lower b)%string).
  by f_equal.
Qed.

(** What [glob] matches against [*.zip] has a [.zip] name. *)
Lemma glob_match_is_zip_name n : glob_match_zip n = true -> is_zip_name n = true.
Proof.
  unfold glob_match_zip, is_zip_name. intros H.
  apply andb_prop in H as [_ H]. destruct (endswith_elim _ _ H) as (pre & ->).
  rewrite lower_app. apply endswith_intro.
Qed.

Lemma has_slash_app a b :
  Str.has_slash (a ++ b)%string = Str.has_slash a || Str.has_slash b.
Proof.
  induction a as [|c a IH]; [reflexivity|].
  change (Str.has_slash (String c (a ++ b)%string) =
          Str.has_slash (String c a) || Str.has_slash b).
  cbn [Str.has_slash]. destruct (Ascii.eqb c "/"); [reflexivity | exact IH].
Qed.

Lemma basename_no_slash n : Str.has_slash n = false -> Path.basename n = n.
Proof. destruct n as [|c n]; [reflexivity|]. intros H. cbn [Path.basename]. by rewrite H. Qed.

Lemma basename_app_slash a n :
  Str.has_slash n = false -> Path.basename (a ++ "/" ++ n)%string = n.
Proof.
  intros H. induction a as [|c a IH].
  - change (Path.basename (String "/" n) = n).
    cbn [Path.basename Str.has_slash]. rewrite Ascii.eqb_refl.
    by apply basename_no_slash.
  - change (Path.basename (String c (a ++ "/" ++ n)%string) = n).
    assert (E : Str.has_slash (String c (a ++ "/" ++ n)%string) = true).
    { cbn [Str.has_slash]. destruct (Ascii.eqb c "/"); [reflexivity|].
      rewrite has_slash_app.
      change (Str.has_slash ("/" ++ n)%string) with (Str.has_slash (String "/" n)).
      cbn [Str.has_slash]. rewrite Ascii.eqb_refl. apply orb_true_r. }
    cbn [Path.basename]. rewrite E. exact IH.
Qed.

Lemma startswith_slash n : Str.startswith "/" n = true -> Str.has_slash n = true.
Proof.
  destruct n as [|c n]; [discriminate|].
  change (Str.startswith "/" (String c n))
    with (if Ascii.eqb "/" c then true else false).
  change (Str.has_slash (String c n))
    with (if Ascii.eqb c "/" then true else Str.has_slash n).
  rewrite (Ascii.eqb_sym "/" c). by destruct (Ascii.eqb c "/").
Qed.

(** [os.path.basename(os.path.join(d, n))] is [n] for an entry name. *)
Lemma basename_join d n :
  Str.has_slash n = false -> Path.basename (Path.join d n) = n.
Proof.
  intros H. unfold Path.join.
  destruct (Str.startswith "/" n) eqn:S.
  { apply startswith_slash in S. congruence. }
  destruct (String.eqb d "") eqn:E; cbn [orb].
  { apply String.eqb_eq in E as ->. change ("" ++ n)%string with n.
    by apply basename_no_slash. }
  destruct (Str.endswith "/" d) eqn:F.
  - destruct (endswith_elim _ _ F) as (pre & ->).
    rewrite str_app_assoc. by apply basename_app_slash.
  - by apply basename_app_slash.
Qed.

(** ** Paths split and joined *)

Lemma upto_last_slash_basename p :
  (Path.upto_last_slash p ++ Path.basename p)%string = p.
Proof.
  induction p as [|c p IH]; [reflexivity|].
  cbn [Path.upto_last_slash Path.basename].
  destruct (Str.has_slash (String c p)); [|reflexivity].
  change (String c (Path.upto_last_slash p ++ Path.basename p)%string = String c p).
  by rewrite IH.
Qed.

Lemma basename_has_no_slash p : Str.has_slash (Path.basename p) = false.
Proof.
  induction p as [|c p IH]; [reflexivity|].
  cbn [Path.basename]. destruct (Str.has_slash (String c p)) eqn:E; [exact IH | exact E].
Qed.

Lemma upto_last_slash_nonempty p :
  Str.has_slash p = true -> Path.upto_last_slash p <> "".
Proof.
  destruct p as [|c p]; [discriminate|]. intros E.
  cbn [Path.upto_last_slash]. by rewrite E.
Qed.

Lemma has_slash_cons c p :
  Str.has_slash (String c p) = if Ascii.eqb c "/" then true else Str.has_slash p.
Proof. reflexivity. Qed.

(** The head [os.path.split] cuts is empty or ends with the last ['/']. *)
Lemma upto_last_slash_shape p :
  Path.upto_last_slash p = "" \/
  exists q, Path.upto_last_slash p = (q ++ "/")%string.
Proof.
  induction p as [|c p IH]; [by left|].
  cbn [Path.upto_last_slash]. destruct (Str.has_slash (String c p)) eqn:E; [|by left].
  right. destruct IH as [Hn | (q & ->)].
  - rewrite has_slash_cons in E. destruct (Ascii.eqb c "/") eqn:C.
    + apply Ascii.eqb_eq in C as ->. rewrite Hn. by exists "".
    + by destruct (upto_last_slash_nonempty p E).
  - by exists (String c q).
Qed.

Lemma double_slash_cons2 a b s :
  double_slash (String a (String b s)) =
  (Ascii.eqb a "/" && Ascii.eqb b "/") || double_slash (String b s).
Proof. reflexivity. Qed.

Lemma double_slash_prefix x y :
  double_slash (x ++ y)%string = false -> double_slash x = false.
Proof.
  induction x as [|a x IH]; [reflexivity|].
  destruct x as [|b x]; [reflexivity|].
  change ((String a (String b x) ++ y)%string)
    with (String a (String b (x ++ y)%string)).
  rewrite !double_slash_cons2. intros H. apply orb_false_elim in H as [-> H].
  cbn [orb]. apply IH. exact H.
Qed.

Lemma double_slash_intro r s : double_slash (r ++ "//" ++ s)%string = true.
Proof.
  induction r as [|a r IH]; [reflexivity|].
  change ((String a r ++ "//" ++ s)%string) with (String a (r ++ "//" ++ s)%string).
  destruct (r ++ "//" ++ s)%string as [|b t]; [discriminate IH|].
  rewrite double_slash_cons2, IH. apply orb_true_r.
Qed.

Lemma no_double_slash_before_slash q :
  double_slash (q ++ "/")%string = false -> Str.endswith "/" q = false.
Proof.
  intros H. destruct (Str.endswith "/" q) eqn:E; [|reflexivity].
  destruct (endswith_elim _ _ E) as (r & ->).
  rewrite str_app_assoc in H.
  change ("/" ++ "/")%string with ("//" ++ "")%string in H.
  by rewrite double_slash_intro in H.
Qed.

Lemma rstrip_slash_cons c s :
  Path.rstrip_slash (String c s) =
  match Path.rstrip_slash s with
  | EmptyString => if Ascii.eqb c "/" then EmptyString else String c EmptyString
  | r => String c r
  end.
Proof. reflexivity. Qed.

Lemma endswith_slash_single c : Str.endswith "/" (String c "") = Ascii.eqb c "/".
Proof.
  rewrite endswith_cons. cbn [String.eqb Str.endswith].
  rewrite (Ascii.eqb_sym "/" c). by destruct (Ascii.eqb c "/").
Qed.

Lemma rstrip_slash_one q :
  q <> "" -> Str.endswith "/" q = false ->
  Path.rstrip_slash (q ++ "/")%string = q.
Proof.
  induction q as [|c q IH]; [congruence|]. intros _ E.
  change ((String c q ++ "/")%string) with (String c (q ++ "/")%string).
  rewrite rstrip_slash_cons. destruct q as [|d q].
  - rewrite endswith_slash_single in E.
    change (Path.rstrip_slash ("" ++ "/")%string) with "". by rewrite E.
  - rewrite endswith_cons in E.
    destruct (String.eqb "/" (String c (String d q))); [discriminate|].
    rewrite IH by (congruence || exact E). reflexivity.
Qed.

Lemma all_slashes_app a b :
  Path.all_slashes (a ++ b)%string = Path.all_slashes a && Path.all_slashes b.
Proof.
  induction a as [|c a IH]; [reflexivity|].
  change (Path.all_slashes (String c (a ++ b)%string) =
          Path.all_slashes (String c a) && Path.all_slashes b).
  cbn [Path.all_slashes]. rewrite IH. apply andb_assoc.
Qed.

Lemma all_slashes_endswith q :
  q <> "" -> Path.all_slashes q = true -> Str.endswith "/" q = true.
Proof.
  induction q as [|c q IH]; [congruence|]. intros _ H.
  cbn [Path.all_slashes] in H. apply andb_prop in H as [Hc Hq].
  destruct q as [|d q].
  - by rewrite endswith_slash_single.
  - rewrite endswith_cons, IH by (congruence || exact Hq).
    by destruct (String.eqb "/" (String c (String d q))).
Qed.

(** [os.path.join] of the two halves of [os.path.split(p)] gives [p] back
    when [p] holds no doubled ['/']. *)
Lemma join_dirname_basename p :
  double_slash p = false ->
  Path.join (Path.dirname p) (Path.basename p) = p.
Proof.
  intros Hd.
  pose proof (upto_last_slash_basename p) as Hsplit.
  assert (Hs : Str.startswith "/" (Path.basename p) = false).
  { destruct (Str.startswith "/" (Path.basename p)) eqn:E; [|reflexivity].
    apply startswith_slash in E. by rewrite basename_has_no_slash in E. }
  unfold Path.dirname, Path.join. rewrite Hs.
  destruct (upto_last_slash_shape p) as [Hh | (q & Hh)]; rewrite Hh in *.
  - exact Hsplit.
  - assert (Hq : double_slash (q ++ "/")%string = false).
    { rewrite <- Hsplit in Hd. by apply double_slash_prefix in Hd. }
    apply no_double_slash_before_slash in Hq.
    destruct q as [|c q]; [exact Hsplit|].
    assert (Hne : String c q <> "") by congruence.
    assert (Ha : Path.all_slashes (String c q ++ "/")%string = false).
    { destruct (Path.all_slashes (String c q ++ "/")%string) eqn:A; [|reflexivity].
      rewrite all_slashes_app in A. apply andb_prop in A as [A _].
      apply all_slashes_endswith in A; congruence. }
    change (String.eqb (String c q ++ "/")%string "") with false.
    rewrite Ha. cbn [negb andb].
    rewrite rstrip_slash_one by assumption.
    change (String.eqb (String c q) "") with false. rewrite Hq. cbn [orb].
    rewrite <- Hsplit at 2. by rewrite str_app_assoc.
Qed.

Lemma startswith_slash_cons e s :
  Str.startswith "/" (String e s) = Ascii.eqb "/" e.
Proof.
  change (Str.startswith "/" (String e s)) with (if Ascii.eqb "/" e then true else false).
  by destruct (Ascii.eqb "/" e).
Qed.

Lemma double_slash_app a b :
  double_slash a = false -> double_slash b = false ->
  Str.endswith "/" a = false \/ Str.startswith "/" b = false ->
  double_slash (a ++ b)%string = false.
Proof.
  intros Ha Hb. induction a as [|c a IH]; intros Hab; [exact Hb|].
  destruct a as [|d a].
  - change ((String c "" ++ b)%string) with (String c b).
    destruct b as [|e b]; [reflexivity|].
    rewrite double_slash_cons2, Hb, orb_false_r.
    rewrite endswith_slash_single, startswith_slash_cons in Hab.
    rewrite (Ascii.eqb_sym e "/").
    destruct Hab as [-> | ->]; [reflexivity | apply andb_false_r].
  - change ((String c (String d a) ++ b)%string)
      with (String c (String d (a ++ b)%string)).
    rewrite double_slash_cons2 in *. apply orb_false_elim in Ha as [-> Ha].
    cbn [orb]. apply IH; [exact Ha|].
    destruct Hab as [Hab | Hab]; [left | by right].
    rewrite endswith_cons in Hab.
    by destruct (String.eqb "/" (String c (String d a))).
Qed.

(** ** Member names as [zipfile] extracts them *)

Lemma split_slash_no_slash s :
  Forall (fun x => Str.has_slash x = false) (Str.split_slash s).
Proof.
  induction s as [|c s IH]; [by repeat constructor|].
  cbn [Str.split_slash]. destruct (Ascii.eqb c "/") eqn:C.
  - constructor; [reflexivity | exact IH].
  - destruct (Str.split_slash s) as [|x r].
    + constructor; [|constructor]. by rewrite has_slash_cons, C.
    + apply Forall_cons in IH as [Hx Hr].
      constructor; [|exact Hr]. by rewrite has_slash_cons, C.
Qed.

Lemma no_slash_no_double x : Str.has_slash x = false -> double_slash x = false.
Proof.
  induction x as [|a x IH]; [reflexivity|]. destruct x as [|b x]; [reflexivity|].
  rewrite has_slash_cons. destruct (Ascii.eqb a "/") eqn:C; [discriminate|].
  intros H. rewrite double_slash_cons2, C. cbn [andb orb]. by apply IH.
Qed.

Lemma no_slash_not_endswith x : Str.has_slash x = false -> Str.endswith "/" x = false.
Proof.
  intros H. destruct (Str.endswith "/" x) eqn:E; [|reflexivity].
  destruct (endswith_elim _ _ E) as (pre & ->).
  rewrite has_slash_app in H. apply orb_false_elim in H as [_ H]. discriminate H.
Qed.

Lemma no_slash_not_startswith x : Str.has_slash x = false -> Str.startswith "/" x = false.
Proof.
  intros H. destruct (Str.startswith "/" x) eqn:E; [|reflexivity].
  apply startswith_slash in E. congruence.
Qed.

(** A ['/'] put before a path that does not start with one doubles none. *)
Lemma double_slash_after_slash s :
  double_slash s = false -> Str.startswith "/" s = false ->
  double_slash (String "/" s) = false.
Proof.
  intros Hd Hs. destruct s as [|e s]; [reflexivity|].
  rewrite double_slash_cons2, Hd, orb_false_r.
  rewrite startswith_slash_cons in Hs. rewrite (Ascii.eqb_sym e "/"), Hs.
  apply andb_false_r.
Qed.

Lemma join_slash_cons2 x y l :
  Str.join_slash (x :: y :: l) = (x ++ "/" ++ Str.join_slash (y :: l))%string.
Proof. reflexivity. Qed.

(** Joined again, components that are not empty and hold no ['/'] give a
    relative path without a doubled ['/']. *)
Lemma join_slash_clean l :
  Forall (fun x => x <> "" /\ Str.has_slash x = false) l ->
  double_slash (Str.join_slash l) = false /\
  Str.startswith "/" (Str.join_slash l) = false.
Proof.
  induction l as [|x l IH]; [by split|]. intros H.
  apply Forall_cons in H as [[Hne Hx] Hl]. specialize (IH Hl).
  destruct l as [|y l].
  - split; [by apply no_slash_no_double | by apply no_slash_not_startswith].
  - destruct IH as [Hd Hs]. rewrite join_slash_cons2. split.
    + apply double_slash_app.
      * by apply no_slash_no_double.
      * by apply double_slash_after_slash.
      * left. by apply no_slash_not_endswith.
    + destruct x as [|c x]; [congruence|].
      change ((String c x ++ "/" ++ Str.join_slash (y :: l))%string)
        with (String c (x ++ "/" ++ Str.join_slash (y :: l))%string).
      rewrite startswith_slash_cons, Ascii.eqb_sym.
      rewrite has_slash_cons in Hx. by destruct (Ascii.eqb c "/").
Qed.

Lemma arcname_clean n :
  double_slash (arcname n) = false /\ Str.startswith "/" (arcname n) = false.
Proof.
  unfold arcname. apply join_slash_clean.
  apply List.Forall_forall. intros x Hx. apply List.filter_In in Hx as [Hx Hv].
  split.
  - intros ->. discriminate Hv.
  - exact (proj1 (List.Forall_forall _ _) (split_slash_no_slash n) x Hx).
Qed.

Example arcname_dot : arcname "./a.txt" = "a.txt".
Proof. reflexivity. Qed.

Example arcname_absolute : arcname "/etc//x/../passwd" = "etc/x/passwd".
Proof. reflexivity. Qed.

(** Two members are written to one file exactly when [zipfile] extracts
    them under one name. *)
Lemma member_path_eq extract_path n1 n2 :
  member_path extract_path n1 = member_path extract_path n2 <->
  arcname n1 = arcname n2.
Proof.
  unfold member_path, Path.join.
  rewrite (proj2 (arcname_clean n1)), (proj2 (arcname_clean n2)).
  split; [|by intros ->].
  destruct (String.eqb extract_path "" || Str.endswith "/" extract_path); intros H.
  - by apply String.app_inj in H.
  - apply String.app_inj in H. by apply String.app_inj in H.
Qed.

Lemma member_path_clean extract_path n :
  double_slash extract_path = false ->
  double_slash (member_path extract_path n) = false.
Proof.
  intros He. destruct (arcname_clean n) as [Hd Hs].
  unfold member_path, Path.join. rewrite Hs.
  destruct (String.eqb extract_path "" || Str.endswith "/" extract_path) eqn:J.
  - apply double_slash_app; [exact He | exact Hd | by right].
  - apply orb_false_elim in J as [_ E].
    apply double_slash_app; [exact He| |by left].
    by apply double_slash_after_slash.
Qed.

(** ** The entries [extractall] goes through *)

Lemma extract_list_names a : map fst (extract_list a) = namelist a.
Proof. unfold extract_list, namelist. rewrite map_map. reflexivity. Qed.

Lemma last_named_absent ms n : ~ In n (map fst ms) -> last_named ms n = None.
Proof.
  induction ms as [|m ms IH]; [reflexivity|]. cbn [map In last_named]. intros H.
  rewrite IH by tauto. destruct (String.eqb m.1 n) eqn:E; [|reflexivity].
  apply String.eqb_eq in E. tauto.
Qed.

Lemma last_named_nodup ms n c :
  NoDup (map fst ms) -> In (n, c) ms -> last_named ms n = Some c.
Proof.
  induction ms as [|m ms IH]; intros Hnd Hin; [destruct Hin|].
  cbn [map] in Hnd. apply NoDup_cons in Hnd as [Hfresh Hnd]. cbn [last_named].
  destruct Hin as [-> | Hin].
  - rewrite last_named_absent by (intros H; apply Hfresh; by apply list_elem_of_In).
    cbn. by rewrite String.eqb_refl.
  - by rewrite (IH Hnd Hin).
Qed.

(** With distinct names, every entry is extracted with its own content. *)
Lemma extract_list_nodup a : NoDup (namelist a) -> extract_list a = zip_members a.
Proof.
  unfold extract_list, namelist, getinfo. intros Hnd.
  assert (H : forall ms, (forall n c, In (n, c) ms -> last_named (zip_members a) n = Some c) ->
            map (fun m => (m.1, default m.2 (last_named (zip_members a) m.1))) ms = ms).
  { induction ms as [|[n c] ms IH]; intros Hms; [reflexivity|].
    cbn [map fst snd]. rewrite (Hms n c) by by left. cbn.
    f_equal. apply IH. intros n' c' Hin. apply Hms. by right. }
  apply H. intros n c Hin. by apply last_named_nodup.
Qed.

(** Of two entries with one name, [extractall] extracts the last one, at
    both places. *)
Example duplicate_name_takes_last :
  extract_list (zip_of [("x.txt", Raw "first"); ("y.txt", Raw "y"); ("x.txt", Raw "second")]) =
  [("x.txt", Raw "second"); ("y.txt", Raw "y"); ("x.txt", Raw "second")].
Proof. reflexivity. Qed.

Lemma NoDup_arcname_names (l : list string) : NoDup (map arcname l) -> NoDup l.
Proof. apply NoDup_fmap_1. Qed.

Lemma in_extract_list a n c :
  In (n, c) (zip_members a) -> exists c', In (n, c') (extract_list a).
Proof.
  intros Hin. unfold extract_list.
  exists (default c (getinfo a n)). apply in_map_iff. by exists (n, c).
Qed.

(** ** Writing members *)

Lemma write_all_app extract_path l1 l2 t :
  write_all extract_path (l1 ++ l2) t =
  write_all extract_path l2 (write_all extract_path l1 t).
Proof. apply fold_left_app. Qed.

Lemma write_all_cons extract_path m ms t :
  write_all extract_path (m :: ms) t =
  write_all extract_path ms (extract_member extract_path m t).
Proof. reflexivity. Qed.

Lemma insert_keeps (t : tree) k c p :
  is_Some (t !! p) -> is_Some (<[k := c]> t !! p).
Proof.
  intros H. destruct (decide (k = p)) as [<-|Hne].
  - rewrite lookup_insert_eq. eauto.
  - by rewrite lookup_insert_ne.
Qed.

Lemma extract_member_keeps extract_path m (t : tree) p :
  is_Some (t !! p) -> is_Some (extract_member extract_path m t !! p).
Proof.
  intros H. unfold extract_member. destruct (Str.endswith "/" m.1); [exact H|].
  by apply insert_keeps.
Qed.

Lemma leave_partial_keeps extract_path m partial (t : tree) p :
  is_Some (t !! p) -> is_Some (leave_partial extract_path m partial t !! p).
Proof.
  intros H. unfold leave_partial. destruct partial as [c|]; [|exact H].
  destruct (_ || _); [exact H|]. by apply insert_keeps.
Qed.

Lemma write_all_keeps extract_path ms (t : tree) p :
  is_Some (t !! p) -> is_Some (write_all extract_path ms t !! p).
Proof.
  revert t. induction ms as [|m ms IH]; intros t H; [exact H|].
  cbn. apply IH, extract_member_keeps, H.
Qed.

Lemma interrupted_keeps extract_path ms fault partial k (t : tree) p :
  is_Some (t !! p) ->
  is_Some (interrupted extract_path ms fault partial k t !! p).
Proof.
  intros H. unfold interrupted.
  destruct fault as [j|]; [|by apply write_all_keeps].
  destruct (ms !! k) as [m|]; [|by apply write_all_keeps].
  destruct (j =? k)%nat; [|by apply write_all_keeps].
  by apply leave_partial_keeps, write_all_keeps.
Qed.

(** Whether it returns or raises, [extractall] removes no file. *)
Lemma extractall_leaves_keeps extract_path a (t : tree) p :
  is_Some (t !! p) -> is_Some (extractall_leaves extract_path a t !! p).
Proof.
  intros H. unfold extractall_leaves.
  destruct (raise_index _ _); [by apply interrupted_keeps | by apply write_all_keeps].
Qed.

(** A file member that was written is in the folder. *)
Lemma write_all_written extract_path ms (t : tree) n c :
  In (n, c) ms -> Str.endswith "/" n = false ->
  is_Some (write_all extract_path ms t !! member_path extract_path n).
Proof.
  revert t. induction ms as [|m ms IH]; intros t Hin Hd; [destruct Hin|].
  cbn. destruct Hin as [-> | Hin]; [|by apply IH].
  apply write_all_keeps. unfold extract_member. cbn. rewrite Hd.
  rewrite lookup_insert_eq. eauto.
Qed.

Lemma extract_member_other extract_path m (t : tree) n :
  arcname m.1 <> arcname n ->
  extract_member extract_path m t !! member_path extract_path n =
  t !! member_path extract_path n.
Proof.
  intros Hne. unfold extract_member. destruct (Str.endswith "/" m.1); [reflexivity|].
  apply lookup_insert_ne. intros E. by apply member_path_eq in E.
Qed.

Lemma leave_partial_other extract_path m partial (t : tree) n :
  arcname m.1 <> arcname n ->
  leave_partial extract_path m partial t !! member_path extract_path n =
  t !! member_path extract_path n.
Proof.
  intros Hne. unfold leave_partial. destruct partial as [c|]; [|reflexivity].
  destruct (_ || _); [reflexivity|].
  apply lookup_insert_ne. intros E. by apply member_path_eq in E.
Qed.

(** A path under which no member is extracted is left as it was. *)
Lemma write_all_other extract_path ms (t : tree) n :
  ~ In (arcname n) (map arcname (map fst ms)) ->
  write_all extract_path ms t !! member_path extract_path n =
  t !! member_path extract_path n.
Proof.
  revert t. induction ms as [|m ms IH]; intros t Hn; [reflexivity|].
  rewrite write_all_cons. cbn [map In] in Hn. rewrite IH by tauto.
  apply extract_member_other. tauto.
Qed.

Lemma map_take {A B} (f : A -> B) k l : map f (take k l) = take k (map f l).
Proof.
  revert k. induction l as [|x l IH]; intros [|k]; cbn; [reflexivity..|].
  by rewrite IH.
Qed.

Lemma in_take {A} (x : A) k l : In x (take k l) -> In x l.
Proof.
  intros H. rewrite <- (take_drop k l). apply in_or_app. by left.
Qed.

Lemma interrupted_other extract_path ms fault partial k (t : tree) n :
  ~ In (arcname n) (map arcname (map fst ms)) ->
  interrupted extract_path ms fault partial k t !! member_path extract_path n =
  t !! member_path extract_path n.
Proof.
  intros Hn. unfold interrupted.
  assert (Hw : write_all extract_path (take k ms) t !! member_path extract_path n =
               t !! member_path extract_path n).
  { apply write_all_other. intros H. apply Hn.
    rewrite map_map in *. apply in_map_iff in H as (m & Hm & Hin).
    apply in_map_iff. exists m. split; [exact Hm | by eapply in_take]. }
  destruct fault as [j|]; [|exact Hw].
  destruct (ms !! k) as [m|] eqn:Hk; [|exact Hw].
  destruct (j =? k)%nat; [|exact Hw].
  rewrite leave_partial_other; [exact Hw|].
  intros E. apply Hn. rewrite map_map. apply in_map_iff. exists m.
  split; [exact E|]. apply list_elem_of_In. by eapply list_elem_of_lookup_2.
Qed.

Lemma extractall_leaves_other extract_path a (t : tree) n :
  ~ In (arcname n) (map arcname (namelist a)) ->
  extractall_leaves extract_path a t !! member_path extract_path n =
  t !! member_path extract_path n.
Proof.
  intros Hn. unfold extractall_leaves. rewrite <- extract_list_names in Hn.
  destruct (raise_index _ _); [by apply interrupted_other | by apply write_all_other].
Qed.

(** When the members are extracted under distinct names, a file member's
    path holds its content. *)
Lemma write_all_content extract_path ms (t : tree) n c :
  NoDup (map arcname (map fst ms)) -> In (n, c) ms -> Str.endswith "/" n = false ->
  write_all extract_path ms t !! member_path extract_path n = Some c.
Proof.
  revert t. induction ms as [|m ms IH]; intros t Hnd Hin Hd; [destruct Hin|].
  rewrite write_all_cons. cbn [map] in Hnd. apply NoDup_cons in Hnd as [Hfresh Hnd].
  destruct Hin as [-> | Hin]; [|by apply IH].
  cbn [fst] in Hfresh. rewrite write_all_other.
  - unfold extract_member. cbn. rewrite Hd. apply lookup_insert_eq.
  - intros H. apply Hfresh. by apply list_elem_of_In.
Qed.

(** ** What a valid archive leaves *)

Lemma valid_passes a : valid a = true -> passes_checks a = true.
Proof. unfold valid. intros H. by apply andb_prop in H as [H _]. Qed.

Lemma valid_extracts a :
  valid a = true -> raise_index (extract_list a) (zip_fault a) = None.
Proof.
  unfold valid, fault_strikes. intros H. apply andb_prop in H as [_ H].
  by destruct (raise_index _ _).
Qed.

Lemma item_files_valid w extract_path item a t :
  stat w item = Some (File a) -> valid a = true ->
  item_files w extract_path item t = write_all extract_path (extract_list a) t.
Proof.
  intros Hs Hv. unfold item_files, extractall_leaves.
  by rewrite Hs, (valid_passes a Hv), (valid_extracts a Hv).
Qed.

Lemma item_files_keeps w extract_path item (t : tree) p :
  is_Some (t !! p) -> is_Some (item_files w extract_path item t !! p).
Proof.
  intros H. unfold item_files.
  destruct (stat w item) as [[a|?]|]; try exact H.
  destruct (passes_checks a); [by apply extractall_leaves_keeps | exact H].
Qed.

Lemma fold_items_keeps w extract_path zs (t : tree) p :
  is_Some (t !! p) ->
  is_Some (fold_left (fun t i => item_files w extract_path i t) zs t !! p).
Proof.
  revert t. induction zs as [|z zs IH]; intros t H; [exact H|].
  cbn [fold_left]. by apply IH, item_files_keeps.
Qed.

Lemma item_files_other w extract_path item t p :
  (forall x, stat w item = Some (File x) -> ~ In (arcname p) (map arcname (namelist x))) ->
  item_files w extract_path item t !! member_path extract_path p =
  t !! member_path extract_path p.
Proof.
  intros H. unfold item_files.
  destruct (stat w item) as [[x|?]|]; try reflexivity.
  destruct (passes_checks x); [|reflexivity].
  apply extractall_leaves_other. by apply H.
Qed.

Lemma fold_items_other w extract_path zs t p :
  (forall i x, In i zs -> stat w i = Some (File x) ->
     ~ In (arcname p) (map arcname (namelist x))) ->
  fold_left (fun t i => item_files w extract_path i t) zs t !! member_path extract_path p =
  t !! member_path extract_path p.
Proof.
  revert t. induction zs as [|z zs IH]; intros t H; [reflexivity|].
  cbn [fold_left]. rewrite IH.
  - apply item_files_other. intros x. apply H. by left.
  - intros i x Hi. apply H. by right.
Qed.

Lemma fold_items_app w extract_path l1 l2 t :
  fold_left (fun t i => item_files w extract_path i t) (l1 ++ l2) t =
  fold_left (fun t i => item_files w extract_path i t) l2
    (fold_left (fun t i => item_files w extract_path i t) l1 t).
Proof. apply fold_left_app. Qed.

(** Every file member of a valid archive of the batch is in the folder
    when the loop ends. *)
Lemma fold_items_written w extract_path zs (t : tree) i x n c :
  In i zs -> stat w i = Some (File x) -> valid x = true ->
  In (n, c) (zip_members x) -> Str.endswith "/" n = false ->
  is_Some (fold_left (fun t i => item_files w extract_path i t) zs t
             !! member_path extract_path n).
Proof.
  intros Hi Hs Hv Hin Hd. apply in_split in Hi as (l1 & l2 & ->).
  rewrite fold_items_app. cbn [fold_left]. apply fold_items_keeps.
  rewrite (item_files_valid w extract_path i x _ Hs Hv).
  apply in_extract_list in Hin as (c' & Hin). by eapply write_all_written.
Qed.

(** The last archive of the batch that holds a path gives it its content. *)
Lemma fold_items_last w extract_path l1 i l2 (t : tree) x n c :
  stat w i = Some (File x) -> valid x = true ->
  In (n, c) (zip_members x) -> Str.endswith "/" n = false ->
  NoDup (map arcname (namelist x)) ->
  (forall j y, In j l2 -> stat w j = Some (File y) ->
     ~ In (arcname n) (map arcname (namelist y))) ->
  fold_left (fun t i => item_files w extract_path i t) (l1 ++ i :: l2) t
    !! member_path extract_path n = Some c.
Proof.
  intros Hs Hv Hin Hd Hnd Hlater.
  rewrite fold_items_app. cbn [fold_left].
  rewrite fold_items_other by exact Hlater.
  rewrite (item_files_valid w extract_path i x _ Hs Hv).
  rewrite extract_list_nodup by by apply NoDup_arcname_names.
  by apply write_all_content.
Qed.

(** ** Bad archives *)

Lemma item_skipped w extract_path item a :
  stat w item = Some (File a) ->
  passes_checks a = false ->
  (forall t, item_files w extract_path item t = t) /\ item_count w item = 0.
Proof.
  intros Hs Hp. unfold item_files, item_count, valid. rewrite Hs, Hp. auto.
Qed.

(** C1. In a batch [pre ++ bad :: post] where [bad] is not a well-formed ZIP
    or fails [testzip], the loop ends normally; the folder and the count it
    leaves are those of the batch [pre ++ post]; the trace holds the reason
    for skipping [bad] and, after it, the whole processing of [post]. The
    other archives are extracted: every file member of every valid archive of
    [pre] and of [post] is in the folder when the loop ends, and it holds the
    content that archive has for it whenever the archive extracts its
    members under distinct names and no archive processed after it holds a
    member extracted under the same name. *)
Theorem bad_archive_skipped_batch_continues
    w directory extract_path pre bad post a st :
  stat w bad = Some (File a) ->
  zip_open a = OpenBadZip \/
  (zip_open a = OpenOk /\ exists n, zip_test a = TestCorrupt n) ->
  let body := process_item w directory extract_path in
  let with_bad := for_each (pre ++ bad :: post) body st in
  let without := for_each (pre ++ post) body st in
  let reason :=
    match zip_open a with
    | OpenBadZip => MsgNotZipSkipping (Path.join directory bad)
    | _ => MsgCorruptedSkipping
    end in
  fst with_bad = Normal tt /\
  files_of (snd with_bad) = files_of (snd without) /\
  total_files_extracted (snd with_bad) = total_files_extracted (snd without) /\
  In (Print reason) (item_trace w directory extract_path bad) /\
  trace (snd with_bad) =
    trace st ++ concat (map (item_trace w directory extract_path) pre) ++
    item_trace w directory extract_path bad ++
    concat (map (item_trace w directory extract_path) post) /\
  (forall i, In i post ->
     In (Print (MsgProcessing (Path.join directory i))) (trace (snd with_bad))) /\
  (forall i x n c, In i (pre ++ post) ->
     stat w i = Some (File x) -> valid x = true ->
     In (n, c) (zip_members x) -> Str.endswith "/" n = false ->
     is_Some (files_of (snd with_bad) !! member_path extract_path n)) /\
  (forall l1 i l2 x n c, pre ++ bad :: post = l1 ++ i :: l2 ->
     stat w i = Some (File x) -> valid x = true ->
     In (n, c) (zip_members x) -> Str.endswith "/" n = false ->
     NoDup (map arcname (namelist x)) ->
     (forall j y, In j l2 -> stat w j = Some (File y) ->
        ~ In (arcname n) (map arcname (namelist y))) ->
     files_of (snd with_bad) !! member_path extract_path n = Some c).
Proof.
  intros Hs Hbad body with_bad without reason.
  assert (Hp : passes_checks a = false).
  { unfold passes_checks. destruct Hbad as [-> | [-> (n & ->)]]; reflexivity. }
  destruct (item_skipped w extract_path bad a Hs Hp) as (Hf & Hc).
  pose proof (for_each_items w directory extract_path (pre ++ bad :: post) st) as H1.
  pose proof (for_each_items w directory extract_path (pre ++ post) st) as H2.
  cbn zeta in H1, H2. fold body in H1, H2. fold with_bad in H1. fold without in H2.
  destruct H1 as (O1 & F1 & _ & T1 & _ & R1).
  destruct H2 as (_ & F2 & _ & T2 & _ & _).
  assert (Htr : trace (snd with_bad) =
    trace st ++ concat (map (item_trace w directory extract_path) pre) ++
    item_trace w directory extract_path bad ++
    concat (map (item_trace w directory extract_path) post)).
  { rewrite R1, map_app, concat_app. reflexivity. }
  split; [exact O1|].
  split; [|split; [|split; [|split; [exact Htr|split; [|split]]]]].
  - rewrite F1, F2, !fold_items_app. cbn [fold_left]. by rewrite Hf.
  - rewrite T1, T2, !sum_list_with_app. cbn [sum_list_with]. rewrite Hc. lia.
  - subst reason. unfold item_trace, process_item, with_zipfile, os_path_getsize,
      os_path_exists, testzip, try_except, with_handle, bind, print, modify.
    rewrite Hs. cbn.
    destruct Hbad as [-> | [-> (n & ->)]]; cbn; tauto.
  - intros i Hi. rewrite Htr.
    apply in_or_app; right. apply in_or_app; right. apply in_or_app; right.
    apply in_concat. exists (item_trace w directory extract_path i).
    split; [apply in_map; exact Hi|].
    destruct (item_trace_head w directory extract_path i) as (rest & ->).
    left; reflexivity.
  - intros i x n c Hi Hsi Hv Hin Hd. rewrite F1.
    eapply fold_items_written; [|exact Hsi|exact Hv|exact Hin|exact Hd].
    apply in_app_or in Hi as [Hi | Hi]; apply in_or_app; [by left | right; by right].
  - intros l1 i l2 x n c Heq Hsi Hv Hin Hd Hnd Hlater.
    rewrite F1, Heq. by eapply fold_items_last.
Qed.

(** The scenario of the specification: [a.zip] valid, [b.zip] corrupt,
    [c.zip] valid. The run completes, the folder holds the files of [a] and
    of [c] and the merged document, and nothing of the earlier run. *)
Example abc_run :
  fst (run abc_world "/d" (Some stale)) = Normal tt /\
  extraction (snd (run abc_world "/d" (Some stale))) =
    Some (list_to_map
            [("/d/combined_extraction/docs/a.pdf", Pdf [1; 2] true);
             ("/d/combined_extraction/a.txt", Raw "from a");
             ("/d/combined_extraction/c.pdf", Pdf [3] true);
             ("/d/combined_extraction/c.txt", Raw "from c");
             ("/d/combined_extraction/merged.pdf", Pdf [3; 1; 2] true)]) /\
  total_files_extracted (snd (run abc_world "/d" (Some stale))) = 4 /\
  In (Print (MsgNotZipSkipping "/d/b.zip")) (trace (snd (run abc_world "/d" (Some stale)))).
Proof.
  split; [vm_compute; reflexivity|].
  split; [|split; [vm_compute; reflexivity|]].
  - destruct (run_files abc_world "/d" (Some stale) ["a.zip"; "b.zip"; "c.zip"])
      as (_ & -> & _); [reflexivity | vm_compute; reflexivity |].
    apply (bool_decide_unpack _). vm_compute. exact I.
  - vm_compute. tauto.
Qed.

Lemma bad_archive_skipped_witness :
  stat abc_world "b.zip" = Some (File not_a_zip) /\
  (let body := process_item abc_world "/d" "/d/combined_extraction" in
   let with_bad := for_each (["a.zip"] ++ "b.zip" :: ["c.zip"]) body (initial (Some ∅)) in
   fst with_bad = Normal tt /\
   files_of (snd with_bad) =
     files_of (snd (for_each (["a.zip"] ++ ["c.zip"]) body (initial (Some ∅)))) /\
   In (Print (MsgNotZipSkipping "/d/b.zip"))
      (item_trace abc_world "/d" "/d/combined_extraction" "b.zip") /\
   files_of (snd with_bad) !! member_path "/d/combined_extraction" "a.txt"
     = Some (Raw "from a") /\
   files_of (snd with_bad) !! member_path "/d/combined_extraction" "docs/a.pdf"
     = Some (Pdf [1; 2] true) /\
   files_of (snd with_bad) !! member_path "/d/combined_extraction" "c.txt"
     = Some (Raw "from c")).
Proof.
  split; [reflexivity|].
  destruct (bad_archive_skipped_batch_continues abc_world "/d" "/d/combined_extraction"
              ["a.zip"] "b.zip" ["c.zip"] not_a_zip (initial (Some ∅)))
    as (H1 & H2 & _ & H4 & _ & _ & _ & H8); [reflexivity | left; reflexivity |].
  assert (Hnd : forall ms, bool_decide (NoDup (map arcname (namelist (zip_of ms)))) = true ->
                  NoDup (map arcname (namelist (zip_of ms)))).
  { intros ms Hb. by apply bool_decide_eq_true in Hb. }
  assert (Hlater : forall n, bool_decide (n <> "c.txt" /\ n <> "c.pdf") = true ->
            forall j y, In j ["b.zip"; "c.zip"] -> stat abc_world j = Some (File y) ->
              ~ In n (map arcname (namelist y))).
  { intros n Hn j y [<- | [<- | []]] [= <-]; [intros []|].
    apply bool_decide_eq_true in Hn as [Hn1 Hn2].
    intros [H | [H | []]]; [apply Hn2 | apply Hn1]; by rewrite <- H. }
  cbn zeta. split; [exact H1|]. split; [exact H2|]. split; [exact H4|].
  split; [|split].
  - apply (H8 [] "a.zip" ["b.zip"; "c.zip"] _ "a.txt" (Raw "from a") eq_refl eq_refl eq_refl);
      [cbn; tauto | reflexivity | apply Hnd; vm_compute; reflexivity
      | apply Hlater; vm_compute; reflexivity].
  - apply (H8 [] "a.zip" ["b.zip"; "c.zip"] _ "docs/a.pdf" (Pdf [1; 2] true)
             eq_refl eq_refl eq_refl);
      [cbn; tauto | reflexivity | apply Hnd; vm_compute; reflexivity
      | apply Hlater; vm_compute; reflexivity].
  - apply (H8 ["a.zip"; "b.zip"] "c.zip" [] _ "c.txt" (Raw "from c") eq_refl eq_refl eq_refl);
      [cbn; tauto | reflexivity | apply Hnd; vm_compute; reflexivity | intros j y []].
Defined.

Example member_path_nested :
  member_path "/d/combined_extraction" "docs/a.pdf" = "/d/combined_extraction/docs/a.pdf".
Proof. reflexivity. Qed.

(** ** Extraction is not atomic *)

Lemma raise_index_bound ms fault k :
  raise_index ms fault = Some k -> k < length ms.
Proof.
  revert fault k. induction ms as [|m ms IH]; intros fault k; [discriminate|].
  cbn [raise_index length].
  assert (Hrec : forall f,
            (if unnamed_file m then Some 0 else S <$> raise_index ms f) = Some k ->
            k < S (length ms)).
  { intros f. destruct (unnamed_file m); [intros [= <-]; lia|].
    destruct (raise_index ms f) as [k'|] eqn:E; [|discriminate].
    intros [= <-]. apply IH in E. lia. }
  destruct fault as [[|j]|]; [intros [= <-]; lia | apply Hrec | apply Hrec].
Qed.

Lemma take_S_lookup {A} (l : list A) k m :
  l !! k = Some m -> take (S k) l = take k l ++ [m].
Proof. intros H. by apply take_S_r. Qed.

(** What [extractall] had written when it raised stays: with the members
    up to the one it raised at extracted under distinct names, each file
    member before that one holds its content. *)
Lemma interrupted_content extract_path ms fault partial k (t : tree) n c :
  NoDup (map arcname (map fst (take (S k) ms))) ->
  In (n, c) (take k ms) -> Str.endswith "/" n = false ->
  interrupted extract_path ms fault partial k t !! member_path extract_path n = Some c.
Proof.
  intros Hnd Hin Hd. unfold interrupted.
  destruct (ms !! k) as [m|] eqn:Hk.
  - rewrite (take_S_lookup ms k m Hk), !map_app in Hnd.
    apply NoDup_app in Hnd as (Hnd & Hdis & _).
    assert (Hw : write_all extract_path (take k ms) t !! member_path extract_path n = Some c)
      by by apply write_all_content.
    destruct fault as [j|]; [|exact Hw].
    destruct (j =? k)%nat; [|exact Hw].
    rewrite leave_partial_other; [exact Hw|].
    intros E. apply (Hdis (arcname n)).
    + apply list_elem_of_In. rewrite map_map. apply in_map_iff. by exists (n, c).
    + cbn. rewrite E. by left.
  - assert (Hnd' : NoDup (map arcname (map fst (take k ms)))).
    { apply lookup_ge_None in Hk. by rewrite !take_ge in * by lia. }
    destruct fault; by apply write_all_content.
Qed.

(** C10. When an archive passes both checks and [extractall] then raises at
    its member of index [k], the members before it have been written and
    stay: the folder is the one before the archive with those [k] members
    written over it and, when the copy of the member of index [k] had begun,
    what the error left of that member; each file of those [k] members is
    there, with its content when the members up to index [k] are extracted
    under distinct names; no file that was there is gone; the count is
    unchanged, the error is printed, the iteration ends normally and the
    loop goes on with the next item from that state. *)
Theorem extraction_not_atomic w directory extract_path item a k st rest :
  stat w item = Some (File a) ->
  passes_checks a = true ->
  raise_index (extract_list a) (zip_fault a) = Some k ->
  let r := process_item w directory extract_path item st in
  fst r = Normal tt /\
  k < length (zip_members a) /\
  files_of (snd r) =
    interrupted extract_path (extract_list a) (zip_fault a) (zip_partial a) k (files_of st) /\
  (forall n c, In (n, c) (take k (extract_list a)) -> Str.endswith "/" n = false ->
     is_Some (files_of (snd r) !! member_path extract_path n)) /\
  (NoDup (map arcname (take (S k) (namelist a))) ->
   forall n c, In (n, c) (take k (extract_list a)) -> Str.endswith "/" n = false ->
     files_of (snd r) !! member_path extract_path n = Some c) /\
  (forall p, is_Some (files_of st !! p) -> is_Some (files_of (snd r) !! p)) /\
  total_files_extracted (snd r) = total_files_extracted st /\
  In (Print (MsgErrorExtracting item OSError)) (trace (snd r)) /\
  for_each (item :: rest) (process_item w directory extract_path) st =
  for_each rest (process_item w directory extract_path) (snd r).
Proof.
  intros Hs Hp Hk r.
  assert (Hr : fst r = Normal tt /\
               files_of (snd r) =
                 interrupted extract_path (extract_list a) (zip_fault a) (zip_partial a) k
                   (files_of st) /\
               total_files_extracted (snd r) = total_files_extracted st /\
               In (Print (MsgErrorExtracting item OSError)) (trace (snd r))).
  { subst r. unfold passes_checks in Hp.
    unfold process_item, with_zipfile, os_path_getsize, os_path_exists,
      testzip, extractall, try_except, with_handle, bind, print, modify.
    rewrite Hs. cbn. generalize (namelist a); intros fl.
    destruct (zip_open a), (zip_test a); try discriminate.
    destruct fl; cbn; rewrite extract_members_spec, Hk; cbn;
      repeat split; rewrite <- ?app_assoc; apply in_or_app; right; cbn; tauto. }
  destruct Hr as (Ho & Hfiles & Ht & Hlog).
  split; [exact Ho|].
  split; [apply raise_index_bound in Hk; unfold extract_list in Hk;
          by rewrite length_map in Hk|].
  split; [exact Hfiles|].
  split; [|split; [|split; [|split; [exact Ht|split; [exact Hlog|]]]]].
  - intros n c Hin Hd. rewrite Hfiles. unfold interrupted.
    assert (Hw : is_Some (write_all extract_path (take k (extract_list a)) (files_of st)
                            !! member_path extract_path n))
      by by eapply write_all_written.
    destruct (zip_fault a); [|exact Hw].
    destruct (extract_list a !! k); [|exact Hw].
    destruct (_ =? _)%nat; [|exact Hw]. by apply leave_partial_keeps.
  - intros Hnd n c Hin Hd. rewrite Hfiles. apply interrupted_content; [|exact Hin|exact Hd].
    by rewrite map_take, extract_list_names.
  - intros p Hsome. rewrite Hfiles. by apply interrupted_keeps.
  - cbn [for_each]. fold r. destruct r as [o st1]. cbn in Ho. by subst o.
Qed.

Lemma extraction_not_atomic_witness :
  stat faulty_world "f.zip" = Some (File faulty_zip) /\
  raise_index (extract_list faulty_zip) (zip_fault faulty_zip) = Some 2 /\
  (let r := process_item faulty_world "/d" "/d/combined_extraction" "f.zip"
              (initial (Some ∅)) in
   fst r = Normal tt /\
   files_of (snd r) !! member_path "/d/combined_extraction" "one.txt" = Some (Raw "1") /\
   files_of (snd r) !! member_path "/d/combined_extraction" "two.txt" = Some (Raw "2") /\
   total_files_extracted (snd r) = 0).
Proof.
  split; [reflexivity|]. split; [reflexivity|].
  destruct (extraction_not_atomic faulty_world "/d" "/d/combined_extraction" "f.zip"
              faulty_zip 2 (initial (Some ∅)) [])
    as (H1 & _ & _ & _ & H5 & _ & H7 & _); [reflexivity | reflexivity | reflexivity |].
  assert (Hnd : NoDup (map arcname (take 3 (namelist faulty_zip)))).
  { apply (bool_decide_unpack _). vm_compute. exact I. }
  cbn zeta. split; [exact H1|].
  split; [apply (H5 Hnd); [cbn; tauto | reflexivity]|].
  split; [apply (H5 Hnd); [cbn; tauto | reflexivity]|]. exact H7.
Defined.

(** What the interrupted extraction of [faulty_zip] leaves in an empty
    folder: its first two members, and the third one empty. *)
Example faulty_zip_leaves :
  files_of (snd (process_item faulty_world "/d" "/d/combined_extraction" "f.zip"
                   (initial (Some ∅)))) =
  list_to_map [("/d/combined_extraction/one.txt", Raw "1");
               ("/d/combined_extraction/two.txt", Raw "2");
               ("/d/combined_extraction/three.txt", Raw "")].
Proof. apply (bool_decide_unpack _). vm_compute. exact I. Qed.

(** ** Colliding paths *)

Lemma item_trace_valid_no_error w directory extract_path item a :
  stat w item = Some (File a) -> valid a = true ->
  Forall (fun e => ~ is_error e) (item_trace w directory extract_path item).
Proof.
  intros Hs Hv. pose proof (valid_extracts a Hv) as Hx.
  unfold valid, passes_checks in Hv. apply andb_prop in Hv as [Hv _].
  unfold item_trace, process_item, with_zipfile, os_path_getsize, os_path_exists,
    testzip, extractall, try_except, with_handle, bind, print, modify.
  rewrite Hs. cbn. generalize (namelist a); intros fl.
  destruct (zip_open a), (zip_test a); try discriminate.
  destruct fl; cbn; rewrite extract_members_spec, Hx;
    cbn; repeat constructor; cbn; tauto.
Qed.

(** C5, as stated, fails: the script does not sort the archives, it takes
    them in the order of the listing; here [a.zip] comes last and wins. *)
Lemma later_in_sort_order_wins_fails :
  ~ later_in_sort_order_wins unsorted_world "/d".
Proof.
  intros H.
  specialize (H ["b.zip"; "a.zip"] "a.zip" "b.zip"
                (zip_of [("x.txt", Raw "from a")]) (zip_of [("x.txt", Raw "from b")])
                "x.txt" (Raw "from a") (Raw "from b")).
  assert (E : extracted_files unsorted_world (Path.join "/d" extraction_name)
                ["b.zip"; "a.zip"]
                !! member_path (Path.join "/d" extraction_name) "x.txt"
              = Some (Raw "from a")) by (vm_compute; reflexivity).
  rewrite E in H.
  assert (Some (Raw "from a") = Some (Raw "from b")) as Habs; [|discriminate Habs].
  apply H; try reflexivity; cbn; tauto.
Qed.

(** C5, amended. In a batch [pre ++ a :: mid ++ b :: post] where [a] and [b]
    are valid archives that both hold the file path [p], [b] extracts its
    members under distinct names, and no archive of [post] holds a member
    extracted under the same name as [p] (names compared as [zipfile]
    extracts them, so that [./x.txt] and [x.txt] are one), the loop ends
    normally, the path holds the content [b] has for it, and processing [a]
    and [b] prints no error: the archive processed later, in the order of
    the located list, wins. *)
Theorem later_processed_archive_wins
    w directory extract_path pre a mid b post A B p cA cB st :
  stat w a = Some (File A) -> stat w b = Some (File B) ->
  valid A = true -> valid B = true ->
  In (p, cA) (zip_members A) -> In (p, cB) (zip_members B) ->
  Str.endswith "/" p = false ->
  NoDup (map arcname (namelist B)) ->
  (forall i x, In i post -> stat w i = Some (File x) ->
     ~ In (arcname p) (map arcname (namelist x))) ->
  let r := for_each (pre ++ a :: mid ++ b :: post)
             (process_item w directory extract_path) st in
  fst r = Normal tt /\
  files_of (snd r) !! member_path extract_path p = Some cB /\
  Forall (fun e => ~ is_error e) (item_trace w directory extract_path a) /\
  Forall (fun e => ~ is_error e) (item_trace w directory extract_path b).
Proof.
  intros Ha Hb Va Vb HpA HpB Hd Hnd Hpost r.
  pose proof (for_each_items w directory extract_path
                (pre ++ a :: mid ++ b :: post) st) as H.
  cbn zeta in H. fold r in H. destruct H as (Ho & Hf & _).
  split; [exact Ho|]. split; [|split].
  - rewrite Hf.
    replace (pre ++ a :: mid ++ b :: post) with ((pre ++ a :: mid) ++ b :: post)
      by (rewrite <- app_assoc; reflexivity).
    by eapply fold_items_last.
  - by eapply item_trace_valid_no_error.
  - by eapply item_trace_valid_no_error.
Qed.

Lemma later_processed_archive_wins_witness :
  stat unsorted_world "b.zip" = Some (File (zip_of [("x.txt", Raw "from b")])) /\
  stat unsorted_world "a.zip" = Some (File (zip_of [("x.txt", Raw "from a")])) /\
  files_of (snd (for_each ([] ++ "b.zip" :: [] ++ "a.zip" :: [])
                   (process_item unsorted_world "/d" "/d/combined_extraction")
                   (initial (Some ∅))))
    !! member_path "/d/combined_extraction" "x.txt" = Some (Raw "from a").
Proof.
  split; [reflexivity|]. split; [reflexivity|].
  destruct (later_processed_archive_wins unsorted_world "/d" "/d/combined_extraction"
              [] "b.zip" [] "a.zip" []
              (zip_of [("x.txt", Raw "from b")]) (zip_of [("x.txt", Raw "from a")])
              "x.txt" (Raw "from b") (Raw "from a") (initial (Some ∅)))
    as (_ & H & _);
    [reflexivity | reflexivity | reflexivity | reflexivity | cbn; tauto | cbn; tauto
    | reflexivity | apply NoDup_singleton | cbn; tauto | exact H].
Defined.

(** A later archive that holds [./x.txt] overwrites the [x.txt] of an
    earlier one: [zipfile] extracts both under the name [x.txt]. *)
Example dot_slash_overwrites :
  let w := directory_with
             [("a.zip", File (zip_of [("x.txt", Raw "from a")]));
              ("b.zip", File (zip_of [("./x.txt", Raw "from b")]))] in
  files_of (snd (for_each ["a.zip"; "b.zip"]
                   (process_item w "/d" "/d/combined_extraction") (initial (Some ∅)))) =
  {[ "/d/combined_extraction/x.txt" := Raw "from b" ]}.
Proof. apply (bool_decide_unpack _). vm_compute. exact I. Qed.

(** ** The count of extracted files *)

#[local] Set Warnings "-clear-no-such-hyp".

Lemma write_all_dom extract_path ms (t : tree) :
  dom (write_all extract_path ms t) =
  dom t ∪ list_to_set (map (member_path extract_path)
                         (List.filter (fun f => negb (Str.endswith "/" f)) (map fst ms))).
Proof.
  revert t. induction ms as [|m ms IH]; intros t.
  - cbn. set_solver.
  - rewrite write_all_cons, IH. unfold extract_member. cbn [map List.filter].
    destruct (Str.endswith "/" m.1); cbn [negb map list_to_set].
    + reflexivity.
    + rewrite dom_insert_L. set_solver.
Qed.

Lemma fold_items_dom w extract_path zs (t : tree) :
  (forall i, In i zs -> exists a, stat w i = Some (File a) /\ valid a = true) ->
  dom (fold_left (fun t i => item_files w extract_path i t) zs t) =
  dom t ∪ list_to_set (map (member_path extract_path) (flat_map (entries_at w) zs)).
Proof.
  revert t. induction zs as [|z zs IH]; intros t H.
  - cbn. set_solver.
  - cbn [fold_left flat_map]. rewrite IH by (intros i Hi; apply H; by right).
    destruct (H z (or_introl eq_refl)) as (a & Hs & Hv).
    rewrite (item_files_valid w extract_path z a t Hs Hv), write_all_dom.
    rewrite extract_list_names.
    unfold entries_at at 2. rewrite Hs. unfold file_entries.
    rewrite map_app, list_to_set_app_L. set_solver.
Qed.

Lemma length_flat_map_sum {A B} (f : A -> list B) l :
  length (flat_map f l) = sum_list_with (fun x => length (f x)) l.
Proof.
  induction l as [|x l IH]; [reflexivity|].
  cbn. by rewrite length_app, IH.
Qed.

Lemma item_count_valid w item a :
  stat w item = Some (File a) -> valid a = true ->
  item_count w item = length (entries_at w item).
Proof. intros Hs Hv. unfold item_count, entries_at. by rewrite Hs, Hv. Qed.

Lemma sum_counts_valid w zs :
  (forall i, In i zs -> exists a, stat w i = Some (File a) /\ valid a = true) ->
  sum_list_with (item_count w) zs = sum_list_with (fun i => length (entries_at w i)) zs.
Proof.
  induction zs as [|z zs IH]; intros H; [reflexivity|].
  cbn. rewrite IH by (intros i Hi; apply H; by right).
  destruct (H z (or_introl eq_refl)) as (a & Hs & Hv).
  by rewrite (item_count_valid w z a Hs Hv).
Qed.

(** Entries extracted under distinct names are written to distinct files. *)
Lemma NoDup_member_paths extract_path l :
  NoDup (map arcname l) -> NoDup (map (member_path extract_path) l).
Proof.
  induction l as [|x l IH]; [constructor|].
  cbn [map]. rewrite !NoDup_cons. intros [Hx Hl]. split; [|by apply IH].
  intros Hin. apply Hx. apply list_elem_of_In in Hin. apply list_elem_of_In.
  apply in_map_iff in Hin as (y & Hy & Hin). apply in_map_iff.
  exists y. split; [by apply member_path_eq in Hy | exact Hin].
Qed.

(** C2, as stated, fails: an archive that is well-formed and passes
    [testzip] is counted only if its extraction completes. Here the second
    archive needs the directory [report] where the first one has put a
    file; its extraction raises, and its entry is not counted. *)
Lemma count_is_sum_of_entries_fails :
  ~ count_is_sum_of_entries nested_world "/d" None.
Proof.
  intros H. specialize (H ["first.zip"; "second.zip"]).
  assert (E : total_files_extracted (snd (run nested_world "/d" None)) = 1)
    by (vm_compute; reflexivity).
  assert (S : sum_list_with (fun i => length (entries_at nested_world i))
                ["first.zip"; "second.zip"] = 2) by reflexivity.
  rewrite E, S in H.
  assert (1 = 2) as Habs; [|discriminate Habs].
  apply H.
  - vm_compute. reflexivity.
  - intros i [<- | [<- | []]]; eexists; split; reflexivity.
  - apply (bool_decide_unpack _). vm_compute. exact I.
Qed.

(** The same happens when the extraction of a well-formed archive stops on
    an I/O error: none of its entries is counted. *)
Lemma count_is_sum_of_entries_fails_on_io_error :
  ~ count_is_sum_of_entries faulty_world "/d" None.
Proof.
  intros H. specialize (H ["f.zip"; "g.zip"]).
  assert (E : total_files_extracted (snd (run faulty_world "/d" None)) = 1)
    by (vm_compute; reflexivity).
  assert (S : sum_list_with (fun i => length (entries_at faulty_world i))
                ["f.zip"; "g.zip"] = 4) by reflexivity.
  rewrite E, S in H.
  assert (1 = 4) as Habs; [|discriminate Habs].
  apply H.
  - vm_compute. reflexivity.
  - intros i [<- | [<- | []]]; eexists; split; reflexivity.
  - apply (bool_decide_unpack _). vm_compute. exact I.
Qed.

(** C2, amended. In a run whose located archives are all valid, that is
    pass both checks and extract to the end without raising, and whose file
    entries are extracted under pairwise distinct names, the counter
    [total_files_extracted] ends as the sum, over the archives, of their
    entries that do not end in ['/']; that sum is what the run prints as
    the expected count and, the names being distinct, also the number of
    files it finds in the folder. *)
Theorem extracted_count_is_sum_of_file_entries w directory old zs :
  setup_ok w = true ->
  located w directory = Some zs ->
  (forall i, In i zs -> exists a, stat w i = Some (File a) /\ valid a = true) ->
  NoDup (map arcname (flat_map (entries_at w) zs)) ->
  let n := sum_list_with (fun i => length (entries_at w i)) zs in
  let st := snd (run w directory old) in
  total_files_extracted st = n /\
  In (Print (MsgExpected n)) (trace st) /\
  In (Print (MsgTotalExtracted n)) (trace st).
Proof.
  intros Hs Hl Hv Hnd n st.
  assert (Ht : total_files_extracted st = n).
  { subst st n. destruct (run_files w directory old zs Hs Hl) as (_ & _ & ->).
    by apply sum_counts_valid. }
  split; [exact Ht|].
  subst st. destruct (run_located w directory old zs Hs Hl) as (es & _ & Hrun).
  rewrite Hrun in *. cbn [snd] in *. rewrite report_result_total in Ht.
  destruct (report_result_trace w (Path.join directory extraction_name)
              (extracted w directory old es zs)) as (rest & -> & _).
  pose proof (extracted_spec w directory old es zs) as H. cbn zeta in H.
  destruct H as (Hx & _ & _).
  assert (Hsize : length (map_to_list (files_of (extracted w directory old es zs))) = n).
  { unfold files_of. rewrite Hx. rewrite length_map_to_list, <- size_dom.
    unfold extracted_files. rewrite fold_items_dom by exact Hv.
    rewrite dom_empty_L, (left_id_L ∅ (∪)).
    rewrite size_list_to_set.
    - rewrite length_map. apply length_flat_map_sum.
    - by apply NoDup_member_paths. }
  rewrite Hsize, Ht. split; apply in_or_app; right; cbn; tauto.
Qed.

Lemma extracted_count_witness :
  setup_ok ac_world = true /\
  located ac_world "/d" = Some ["a.zip"; "c.zip"] /\
  NoDup (map arcname (flat_map (entries_at ac_world) ["a.zip"; "c.zip"])) /\
  total_files_extracted (snd (run ac_world "/d" None)) = 4 /\
  In (Print (MsgExpected 4)) (trace (snd (run ac_world "/d" None))) /\
  In (Print (MsgTotalExtracted 4)) (trace (snd (run ac_world "/d" None))).
Proof.
  assert (Hnd : NoDup (map arcname (flat_map (entries_at ac_world) ["a.zip"; "c.zip"]))).
  { apply (bool_decide_unpack _). vm_compute. exact I. }
  split; [reflexivity|]. split; [vm_compute; reflexivity|]. split; [exact Hnd|].
  apply (extracted_count_is_sum_of_file_entries ac_world "/d" None ["a.zip"; "c.zip"]).
  - reflexivity.
  - vm_compute; reflexivity.
  - intros i [<- | [<- | []]]; eexists; split; reflexivity.
  - exact Hnd.
Defined.

(** Two entries that [zipfile] extracts under one name leave one file,
    and are counted twice. *)
Example same_file_counted_twice :
  let w := directory_with [("a.zip", File (zip_of [("a.txt", Raw "1"); ("./a.txt", Raw "2")]))] in
  let st := snd (run w "/d" None) in
  total_files_extracted st = 2 /\
  In (Print (MsgTotalExtracted 1)) (trace st) /\
  extraction st = Some {[ "/d/combined_extraction/a.txt" := Raw "2" ]}.
Proof.
  cbn zeta. split; [vm_compute; reflexivity|]. split; [vm_compute; tauto|].
  apply (bool_decide_unpack _). vm_compute. exact I.
Qed.


(** ** The merge stage *)

Lemma appended_pages_error t pdf e :
  append_error t pdf = Some e -> appended_pages t pdf = [].
Proof.
  unfold append_error, appended_pages.
  destruct (t !! pdf) as [[?|? []]|]; intros; try reflexivity; discriminate.
Qed.

Lemma appended_pages_ok t pdf :
  append_error t pdf = None -> length (appended_pages t pdf) = page_count_at t pdf.
Proof.
  unfold append_error, appended_pages, page_count_at.
  destruct (t !! pdf) as [[?|? []]|]; intros; try reflexivity; discriminate.
Qed.

Lemma sort_paths_sorted l : Sorted String.le (sort_paths l).
Proof. apply (Sorted_merge_sort String.le). Qed.

Lemma sort_paths_perm l : sort_paths l ≡ₚ l.
Proof. apply merge_sort_Permutation. Qed.

Lemma sum_list_with_ext {A} (f g : A -> nat) l :
  (forall x, In x l -> f x = g x) -> sum_list_with f l = sum_list_with g l.
Proof.
  induction l as [|x l IH]; intros H; [reflexivity|].
  cbn. rewrite (H x (or_introl eq_refl)), IH; [reflexivity|].
  intros y Hy. apply H. by right.
Qed.

(** C4, as stated, fails: a candidate that fails to append is skipped, so
    the merged document lacks its pages. *)
Lemma merged_counts_every_candidate_fails :
  ~ merged_counts_every_candidate (directory_with []) "/d/combined_extraction" locked_folder.
Proof.
  unfold merged_counts_every_candidate. rewrite combine_pdfs_spec.
  vm_compute. intros (doc & Hdoc & Hn). injection Hdoc as <-. discriminate Hn.
Qed.

(** C4, amended. Without candidates the merge stage leaves the folder as it
    is and prints that there is nothing to combine. With candidates it goes
    through them in ascending order of their full paths; when the write
    succeeds the merged document is made of the pages of the candidates that
    appended, in that order, so its page count is the sum of their page
    counts; and when every candidate appends, that is the sum of the page
    counts of all the candidates. *)
Theorem merged_pages_are_the_appended_ones w directory st :
  let t := files_of st in
  let output_path := Path.join directory "merged.pdf" in
  let st' := snd (combine_pdfs w directory st) in
  let order := sort_paths (candidates t) in
  fst (combine_pdfs w directory st) = Normal tt /\
  (candidates t = [] ->
     extraction st' = extraction st /\
     trace st' = trace st ++ [Print MsgCombining; Print MsgNoPdf]) /\
  Sorted String.le order /\ order ≡ₚ candidates t /\
  (candidates t <> [] -> merged_writable w = true ->
     files_of st' !! output_path = Some (Pdf (flat_map (appended_pages t) order) true) /\
     length (flat_map (appended_pages t) order) =
       sum_list_with (fun p => length (appended_pages t p)) (candidates t)) /\
  (candidates t <> [] -> merged_writable w = true ->
     (forall p, In p (candidates t) -> append_error t p = None) ->
     exists doc,
       files_of st' !! output_path = Some doc /\
       page_count doc = sum_list_with (page_count_at t) (candidates t)).
Proof.
  intros t output_path st' order. subst st'. rewrite combine_pdfs_spec. cbn [fst snd].
  assert (Hw : candidates t <> [] -> merged_writable w = true ->
     files_of (combine_result w directory st) !! output_path =
       Some (Pdf (flat_map (appended_pages t) order) true) /\
     length (flat_map (appended_pages t) order) =
       sum_list_with (fun p => length (appended_pages t p)) (candidates t)).
  { intros Hne Hwr. split.
    - unfold combine_result. fold t. destruct (candidates t) eqn:E; [congruence|].
      rewrite Hwr. unfold files_of at 1. cbn [extraction].
      apply lookup_insert_eq.
    - rewrite length_flat_map_sum. subst order. by rewrite sort_paths_perm. }
  split; [reflexivity|]. split; [|split; [|split; [|split; [exact Hw|]]]].
  - intros E. unfold combine_result. fold t. rewrite E. split; reflexivity.
  - apply sort_paths_sorted.
  - apply sort_paths_perm.
  - intros Hne Hwr Hall. destruct (Hw Hne Hwr) as (Hdoc & Hlen).
    eexists. split; [exact Hdoc|]. cbn [page_count]. rewrite Hlen.
    apply sum_list_with_ext. intros p Hp. by apply appended_pages_ok, Hall.
Qed.

Lemma merged_pages_witness :
  candidates (files_of locked_folder) <> [] /\
  files_of (snd (combine_pdfs (directory_with []) "/d/combined_extraction" locked_folder))
    !! "/d/combined_extraction/merged.pdf" = Some (Pdf [1; 2] true).
Proof.
  split; [vm_compute; discriminate|].
  destruct (merged_pages_are_the_appended_ones (directory_with [])
              "/d/combined_extraction" locked_folder) as (_ & _ & _ & _ & H & _).
  destruct H as (H & _); [vm_compute; discriminate | reflexivity |].
  etransitivity; [exact H|]. vm_compute. reflexivity.
Defined.

(** C8, as stated, fails: the script writes [merged.pdf] once it has found
    candidates, also when none of them could be appended. *)
Lemma merged_only_if_one_appended_fails :
  ~ merged_only_if_one_appended (directory_with []) "/d/combined_extraction" junk_folder.
Proof.
  unfold merged_only_if_one_appended. rewrite report_and_merge_spec.
  assert (Hc : candidates (files_of junk_folder) = ["/d/combined_extraction/junk.pdf"])
    by (vm_compute; reflexivity).
  assert (Hj : append_error (files_of junk_folder) "/d/combined_extraction/junk.pdf"
               = Some PdfReadError) by (vm_compute; reflexivity).
  intros H. destruct H as (_ & p & Hp & He).
  - vm_compute. eauto.
  - rewrite Hc in Hp. destruct Hp as [<- | []]. rewrite Hj in He. discriminate He.
Qed.

Lemma in_append_traces t l p e :
  In p l -> append_error t p = Some e ->
  In (Print (MsgErrorAdding p e)) (flat_map (append_trace t) l).
Proof.
  intros Hp He. apply in_flat_map. exists p. split; [exact Hp|].
  unfold append_trace. rewrite He. cbn. tauto.
Qed.

Lemma report_result_files w extract_path st :
  files_of (report_result w extract_path st) = merged_files w extract_path (files_of st).
Proof.
  unfold report_result, merged_files. cbn [emit].
  destruct (pdf_merger_available w); [|reflexivity].
  unfold combine_result, write_outcome. rewrite !files_of_emit.
  destruct (candidates (files_of st)); [reflexivity|].
  destruct (merged_writable w); [reflexivity|].
  destruct (failed_write_leaves w); reflexivity.
Qed.

(** C8, amended. Lines 176-196 (the report and the merge stage) end
    normally. When merging runs, every candidate whose append fails has its
    error printed, and adds no page: if the candidates in order are
    [l1 ++ p :: l2] and [p] fails, the pages appended are those of [l1]
    followed by those of [l2]. [merged.pdf] is written, with those pages,
    whenever merging runs, a candidate was found and the write succeeds,
    whether or not any candidate was appended; when the write fails the
    path holds what the failed write left, an empty or truncated file if
    the output had been opened and else what was there before; and the file
    at that path changes only if merging ran and a candidate was found. *)
Theorem failed_append_skipped_merged_written_if_candidates w extract_path st :
  let t := files_of st in
  let output_path := Path.join extract_path "merged.pdf" in
  let order := sort_paths (candidates t) in
  let pages := flat_map (appended_pages t) order in
  let st' := snd (report_and_merge w extract_path st) in
  fst (report_and_merge w extract_path st) = Normal tt /\
  (pdf_merger_available w = true ->
   forall p e, In p (candidates t) -> append_error t p = Some e ->
     In (Print (MsgErrorAdding p e)) (trace st')) /\
  (forall l1 p l2 e, order = l1 ++ p :: l2 -> append_error t p = Some e ->
     pages = flat_map (appended_pages t) l1 ++ flat_map (appended_pages t) l2) /\
  (pdf_merger_available w = true -> candidates t <> [] -> merged_writable w = true ->
     files_of st' !! output_path = Some (Pdf pages true)) /\
  (pdf_merger_available w = true -> candidates t <> [] -> merged_writable w = false ->
     files_of st' !! output_path =
       match failed_write_leaves w with
       | Some c => Some c
       | None => t !! output_path
       end) /\
  (files_of st' !! output_path <> t !! output_path ->
     pdf_merger_available w = true /\ candidates t <> []).
Proof.
  intros t output_path order pages st'. subst st'.
  rewrite report_and_merge_spec. cbn [fst snd].
  split; [reflexivity|]. split; [|split; [|split; [|split]]].
  - intros Ha p e Hp He. unfold report_result. rewrite Ha. cbn [emit trace].
    apply in_or_app; left.
    unfold combine_result. rewrite !files_of_emit. fold t.
    assert (Hin : In (Print (MsgErrorAdding p e))
                    (flat_map (append_trace t) (sort_paths (candidates t)))).
    { apply in_append_traces; [|exact He].
      apply list_elem_of_In. rewrite sort_paths_perm. by apply list_elem_of_In. }
    destruct (candidates t) eqn:E; [destruct Hp|].
    destruct (merged_writable w); cbn [trace];
      apply in_or_app; right; apply in_or_app; left;
      apply in_or_app; right; apply in_or_app; left; exact Hin.
  - intros l1 p l2 e Ho He. subst pages. rewrite Ho.
    rewrite flat_map_app. cbn [flat_map].
    by rewrite (appended_pages_error t p e He).
  - intros Ha Hne Hw. rewrite report_result_files. unfold merged_files, write_outcome.
    fold t. rewrite Ha, Hw. destruct (candidates t) eqn:E; [congruence|].
    apply lookup_insert_eq.
  - intros Ha Hne Hw. rewrite report_result_files. unfold merged_files, write_outcome.
    fold t. rewrite Ha, Hw. destruct (candidates t) eqn:E; [congruence|].
    destruct (failed_write_leaves w); [apply lookup_insert_eq | reflexivity].
  - rewrite report_result_files. unfold merged_files. fold t.
    destruct (pdf_merger_available w); [|congruence].
    destruct (candidates t); [congruence|].
    intros _. split; congruence.
Qed.

Lemma failed_append_witness :
  candidates (files_of junk_folder) <> [] /\
  append_error (files_of junk_folder) "/d/combined_extraction/junk.pdf"
    = Some PdfReadError /\
  In (Print (MsgErrorAdding "/d/combined_extraction/junk.pdf" PdfReadError))
     (trace (snd (report_and_merge (directory_with []) "/d/combined_extraction"
                    junk_folder))) /\
  files_of (snd (report_and_merge (directory_with []) "/d/combined_extraction"
                   junk_folder))
    !! "/d/combined_extraction/merged.pdf" = Some (Pdf [] true).
Proof.
  split; [vm_compute; discriminate|]. split; [vm_compute; reflexivity|].
  destruct (failed_append_skipped_merged_written_if_candidates (directory_with [])
              "/d/combined_extraction" junk_folder) as (_ & H1 & _ & H2 & _).
  split.
  - apply H1; [reflexivity | vm_compute; tauto | vm_compute; reflexivity].
  - etransitivity; [apply H2; [reflexivity | vm_compute; discriminate | reflexivity]|].
    vm_compute. reflexivity.
Defined.

(** ** Handles *)

Lemma handle_eqb_refl h : handle_eqb h h = true.
Proof. destruct h; cbn; [apply String.eqb_refl | reflexivity]. Qed.

Lemma outstanding_app tr1 tr2 held :
  outstanding (tr1 ++ tr2) held = outstanding tr2 (outstanding tr1 held).
Proof.
  revert held. induction tr1 as [|e tr1 IH]; intros held; [reflexivity|].
  destruct e; cbn; apply IH.
Qed.

Lemma outstanding_prints tr held :
  Forall (fun e => match e with Acquire _ | Release _ => False | _ => True end) tr ->
  outstanding tr held = held.
Proof.
  induction 1 as [|e tr He _ IH]; [reflexivity|].
  destruct e; cbn; try exact IH; destruct He.
Qed.

(** Every archive handle a loop iteration opens is closed when the
    iteration ends, whichever way it ends. *)
Lemma item_trace_releases w directory extract_path item held :
  outstanding (item_trace w directory extract_path item) held = held.
Proof.
  item_cases w item a; rewrite ?String.eqb_refl; reflexivity.
Qed.

Lemma items_trace_releases w directory extract_path zs held :
  outstanding (concat (map (item_trace w directory extract_path) zs)) held = held.
Proof.
  induction zs as [|z zs IH]; [reflexivity|].
  cbn [map concat]. by rewrite outstanding_app, item_trace_releases.
Qed.

Lemma append_traces_hold t l held :
  outstanding (flat_map (append_trace t) l) held = held.
Proof.
  apply outstanding_prints. induction l as [|p l IH]; cbn [flat_map]; [constructor|].
  apply Forall_app; split; [|exact IH].
  unfold append_trace. destruct (append_error t p); repeat constructor.
Qed.

(** The merger is closed when the write succeeds and left open when it
    fails. *)
Lemma combine_result_outstanding w directory st held :
  exists es,
    trace (combine_result w directory st) = trace st ++ es /\
    outstanding es held =
      match candidates (files_of st) with
      | [] => held
      | _ :: _ => if merged_writable w then held else HMerger :: held
      end.
Proof.
  unfold combine_result.
  destruct (candidates (files_of st)) as [|c cs].
  - eexists; split; reflexivity.
  - destruct (merged_writable w); eexists; (split; [reflexivity|]);
      cbn [app outstanding]; rewrite !outstanding_app, append_traces_hold;
      cbn; rewrite ?Nat.eqb_refl; reflexivity.
Qed.

(** C9, at the failing input: one archive with a PDF, and [merger.write]
    raising. The run ends normally and prints the error of the merge; the
    archive handles are closed, the merger is opened and never closed. *)
Theorem merger_left_open_when_write_fails :
  let r := run unwritable_world "/d" None in
  fst r = Normal tt /\
  In (Print (MsgErrorCombining OSError)) (trace (snd r)) /\
  In (Acquire HMerger) (trace (snd r)) /\
  ~ In (Release HMerger) (trace (snd r)) /\
  outstanding (trace (snd r)) [] = [HMerger].
Proof.
  cbn zeta. split; [vm_compute; reflexivity|].
  split; [vm_compute; tauto|]. split; [vm_compute; tauto|].
  split; [|vm_compute; reflexivity].
  vm_compute. intros H.
  repeat (destruct H as [H | H]; [discriminate H|]). exact H.
Qed.

(** ** The Archive Locator *)

(** C6, as stated, fails: when no regular file has a [.zip] name the script
    falls back on [glob], which also matches directories. *)
Lemma locator_returns_exactly_zip_files_fails :
  ~ locator_returns_exactly_zip_files zip_dir_world "/d".
Proof.
  intros H.
  assert (E : fst (locate_zip_files zip_dir_world "/d" (initial None))
              = Normal ["data.zip"]) by (vm_compute; reflexivity).
  destruct (proj1 (H _ _ E "data.zip") (or_introl eq_refl)) as (_ & F & _).
  discriminate F.
Qed.

Lemma filter_nil_iff {A} (f : A -> bool) l :
  List.filter f l = [] -> forall x, In x l -> f x = false.
Proof.
  induction l as [|y l IH]; intros H x Hx; [destruct Hx|].
  cbn in H. destruct (f y) eqn:E; [discriminate|].
  destruct Hx as [<- | Hx]; [exact E | by apply IH].
Qed.

Lemma length_pos_nonnil {A} (l : list A) : (0 <? length l)%nat = true <-> l <> [].
Proof.
  destruct l; split; intros H.
  - discriminate H.
  - by destruct H.
  - discriminate.
  - reflexivity.
Qed.

(** C6, amended. For a target directory whose path holds no wildcard
    character and whose entry names hold no ['/'], the locator looks at the
    listing only. It returns exactly the regular files of the listing with
    a [.zip] name, any case, in listing order, whenever there is one. When
    there is none it falls back: it returns the entries that [glob]
    matches against [*.zip] (suffix in lower case, name not starting with
    a dot) when there are some, and otherwise all the entries with a [.zip]
    name, any case; none of the entries returned this way is a regular
    file. It returns nothing and ends the run exactly when no entry at all
    has a [.zip] name. *)
Theorem locator_finds_zip_files_or_falls_back w directory st :
  (forall n, In n (names_of w) -> Str.has_slash n = false) ->
  Str.has_magic (glob_dirname directory) = false ->
  let files := method1 w in
  let globbed := List.filter glob_match_zip (names_of w) in
  let named := method3 w in
  let result := fst (locate_zip_files w directory st) in
  (forall n, In n files <->
     In n (names_of w) /\ os_path_isfile w n = true /\ is_zip_name n = true) /\
  (forall n, In n named <-> In n (names_of w) /\ is_zip_name n = true) /\
  (forall n, In n globbed -> In n named) /\
  (files <> [] -> result = Normal files) /\
  (files = [] -> globbed <> [] -> result = Normal globbed) /\
  (files = [] -> globbed = [] -> named <> [] -> result = Normal named) /\
  (files = [] -> forall n, In n named -> os_path_isfile w n = false) /\
  (result = Return <-> named = []).
Proof.
  intros Hnames Hmagic files globbed named result. subst result.
  destruct (locate_zip_files_spec w directory st) as (es & _ & -> & _). cbn [fst].
  assert (Hm2 : map Path.basename (method2 w directory) = globbed).
  { unfold method2. rewrite Hmagic, map_map.
    assert (G : forall l, (forall n, In n l -> Str.has_slash n = false) ->
              map (fun x => Path.basename (Path.join (glob_dirname directory) x)) l = l).
    { induction l as [|x l IH]; intros Hl; [reflexivity|].
      cbn. rewrite basename_join by (apply Hl; by left).
      f_equal. apply IH. intros n Hn. apply Hl. by right. }
    apply G. intros n Hn. apply List.filter_In in Hn as [Hn _]. by apply Hnames. }
  assert (Hl2 : length (method2 w directory) = length globbed).
  { by rewrite <- Hm2, length_map. }
  assert (H1 : forall n, In n files <->
     In n (names_of w) /\ os_path_isfile w n = true /\ is_zip_name n = true).
  { intros n. subst files. unfold method1. rewrite List.filter_In, andb_true_iff.
    tauto. }
  assert (H3 : forall n, In n named <-> In n (names_of w) /\ is_zip_name n = true).
  { intros n. subst named. unfold method3. by rewrite List.filter_In. }
  assert (Hsub : forall n, In n globbed -> In n named).
  { intros n Hn. apply List.filter_In in Hn as [Hn Hg]. apply H3.
    split; [exact Hn | by apply glob_match_is_zip_name]. }
  assert (Hfiles : forall n, In n files -> In n named).
  { intros n Hn. apply H1 in Hn. apply H3. tauto. }
  split; [exact H1|]. split; [exact H3|]. split; [exact Hsub|].
  unfold located. fold files named. rewrite Hl2.
  split; [|split; [|split; [|split]]].
  - intros Hne. apply length_pos_nonnil in Hne. by rewrite Hne.
  - intros -> Hne. apply length_pos_nonnil in Hne. rewrite Hne.
    change (0 <? length [])%nat with false. cbn iota. by rewrite Hm2.
  - intros -> -> Hne. apply length_pos_nonnil in Hne. rewrite Hne. reflexivity.
  - intros Hnil n Hn. apply H3 in Hn as [Hn Hz].
    pose proof (filter_nil_iff _ _ Hnil n Hn) as F.
    cbn beta in F. rewrite Hz, andb_true_r in F. exact F.
  - split.
    + destruct (0 <? length files)%nat; [discriminate|].
      destruct (0 <? length globbed)%nat; [discriminate|].
      destruct (0 <? length named)%nat eqn:E; [discriminate|]. intros _.
      destruct named; [reflexivity | discriminate E].
    + intros Hnil.
      assert (Ef : files = []).
      { destruct files as [|x l]; [reflexivity|].
        pose proof (Hfiles x (or_introl eq_refl)) as Hx. rewrite Hnil in Hx. destruct Hx. }
      assert (Eg : globbed = []).
      { destruct globbed as [|x l]; [reflexivity|].
        pose proof (Hsub x (or_introl eq_refl)) as Hx. rewrite Hnil in Hx. destruct Hx. }
      rewrite Ef, Eg, Hnil. reflexivity.
Qed.

Lemma locator_witness :
  (forall n, In n (names_of zip_dir_world) -> Str.has_slash n = false) /\
  Str.has_magic (glob_dirname "/d") = false /\
  method1 zip_dir_world = [] /\
  fst (locate_zip_files zip_dir_world "/d" (initial None)) = Normal ["data.zip"] /\
  fst (locate_zip_files abc_world "/d" (initial None)) = Normal ["a.zip"; "b.zip"; "c.zip"] /\
  fst (locate_zip_files (directory_with [("DATA.ZIP", SubDir 64)]) "/d" (initial None))
    = Normal ["DATA.ZIP"] /\
  fst (locate_zip_files no_zip_world "/d" (initial None)) = Return.
Proof.
  assert (Hz : forall n, In n (names_of zip_dir_world) -> Str.has_slash n = false).
  { intros n [<- | [<- | []]]; reflexivity. }
  assert (Ha : forall n, In n (names_of abc_world) -> Str.has_slash n = false).
  { intros n [<- | [<- | [<- | []]]]; reflexivity. }
  assert (Hu : forall n, In n (names_of (directory_with [("DATA.ZIP", SubDir 64)])) ->
                 Str.has_slash n = false).
  { intros n [<- | []]; reflexivity. }
  assert (Hn : forall n, In n (names_of no_zip_world) -> Str.has_slash n = false).
  { intros n [<- | [<- | []]]; reflexivity. }
  split; [exact Hz|]. split; [reflexivity|]. split; [reflexivity|].
  split; [|split; [|split]].
  - destruct (locator_finds_zip_files_or_falls_back zip_dir_world "/d" (initial None)
                Hz eq_refl) as (_ & _ & _ & _ & H & _).
    etransitivity; [apply H; [reflexivity | vm_compute; discriminate] | reflexivity].
  - destruct (locator_finds_zip_files_or_falls_back abc_world "/d" (initial None)
                Ha eq_refl) as (_ & _ & _ & H & _).
    etransitivity; [apply H; vm_compute; discriminate | reflexivity].
  - destruct (locator_finds_zip_files_or_falls_back
                (directory_with [("DATA.ZIP", SubDir 64)]) "/d" (initial None)
                Hu eq_refl) as (_ & _ & _ & _ & _ & H & _).
    etransitivity;
      [apply H; [reflexivity | reflexivity | vm_compute; discriminate] | reflexivity].
  - destruct (locator_finds_zip_files_or_falls_back no_zip_world "/d" (initial None)
                Hn eq_refl) as (_ & _ & _ & _ & _ & _ & _ & H).
    apply H. reflexivity.
Defined.

(** When the path of the target directory holds a wildcard character,
    [glob] reads it as a pattern: it looks into the directories the pattern
    matches, here none, and not into the target directory; the locator then
    falls back on method 3. *)
Example glob_reads_directory_as_pattern :
  Str.has_magic (glob_dirname "/tmp/w[1]") = true /\
  In (Print (MsgUsingMethod 3 ["data.zip"]))
     (trace (snd (locate_zip_files zip_dir_world "/tmp/w[1]" (initial None)))) /\
  In (Print (MsgUsingMethod 2 ["data.zip"]))
     (trace (snd (locate_zip_files zip_dir_world "/tmp/w1" (initial None)))).
Proof. split; [reflexivity|]. split; vm_compute; tauto. Qed.

(** * Further properties of the script *)

(** ** Errors other than a bad archive *)

Lemma process_item_error w directory extract_path item st :
  stat w item = None \/
  (exists n, stat w item = Some (SubDir n)) \/
  (exists a, stat w item = Some (File a) /\
     (zip_open a = OpenFails \/ (zip_open a = OpenOk /\ zip_test a = TestFails))) ->
  exists e es,
    Forall (fun e => ~ is_error e) es /\
    process_item w directory extract_path item st =
    (Normal tt,
     emit (es ++ [Print (MsgErrorExtracting item e); Print (MsgExceptionType e);
                  Print MsgTraceback]) st).
Proof.
  intros H.
  unfold process_item, with_zipfile, os_path_getsize, os_path_exists,
    testzip, try_except, with_handle, bind, print, modify.
  destruct H as [-> | [(n & ->) | (a & -> & [-> | [-> ->]])]]; cbn;
    rewrite !emit_app.
  - eexists _, [_; _]. split; [|reflexivity]. repeat constructor; cbn; tauto.
  - eexists _, [_; _; _]. split; [|reflexivity]. repeat constructor; cbn; tauto.
  - eexists _, [_; _; _]. split; [|reflexivity]. repeat constructor; cbn; tauto.
  - eexists _, [_; _; _; _; _]. split; [|reflexivity]. repeat constructor; cbn; tauto.
Qed.

(** X2. An item that no longer exists, that is a directory, that cannot be
    opened for a reason other than its format, or whose [testzip] raises, is
    handled by the [except Exception] of the loop: the iteration ends
    normally, the folder and the count are untouched, the three lines of the
    error are the last thing printed and the only error reported, and every
    handle opened is closed. *)
Theorem unexpected_error_is_absorbed w directory extract_path item st :
  stat w item = None \/
  (exists n, stat w item = Some (SubDir n)) \/
  (exists a, stat w item = Some (File a) /\
     (zip_open a = OpenFails \/ (zip_open a = OpenOk /\ zip_test a = TestFails))) ->
  let r := process_item w directory extract_path item st in
  fst r = Normal tt /\
  extraction (snd r) = extraction st /\
  total_files_extracted (snd r) = total_files_extracted st /\
  (exists e es,
     Forall (fun e => ~ is_error e) es /\
     trace (snd r) = trace st ++ es ++
       [Print (MsgErrorExtracting item e); Print (MsgExceptionType e);
        Print MsgTraceback]) /\
  outstanding (item_trace w directory extract_path item) [] = [].
Proof.
  intros H r. subst r.
  destruct (process_item_error w directory extract_path item st H)
    as (e & es & Hes & ->).
  cbn. repeat split; [|apply item_trace_releases]. eauto.
Qed.

(** A directory entry named like an archive, beside a real one. *)
Lemma unexpected_error_witness :
  stat zip_dir_world "data.zip" = Some (SubDir 64) /\
  fst (process_item zip_dir_world "/d" "/d/combined_extraction" "data.zip"
         (initial (Some stale))) = Normal tt /\
  extraction (snd (process_item zip_dir_world "/d" "/d/combined_extraction" "data.zip"
                     (initial (Some stale)))) = Some stale.
Proof.
  split; [reflexivity|].
  destruct (unexpected_error_is_absorbed zip_dir_world "/d" "/d/combined_extraction"
              "data.zip" (initial (Some stale))) as (H1 & H2 & _).
  - right; left. by exists 64.
  - split; [exact H1 | exact H2].
Defined.

(** ** Every located item is processed, once and in order *)

Lemma item_trace_processing w directory extract_path item :
  omap processing_path (item_trace w directory extract_path item) =
  [Path.join directory item].
Proof. item_cases w item a; reflexivity. Qed.

(** X3. The loop announces the processing of each item of the list exactly
    once and in the order of the list, whatever the items turn out to be. *)
Theorem items_processed_once_in_order w directory extract_path zs st :
  omap processing_path
    (trace (snd (for_each zs (process_item w directory extract_path) st))) =
  omap processing_path (trace st) ++ map (Path.join directory) zs.
Proof.
  pose proof (for_each_items w directory extract_path zs st) as H.
  cbn zeta in H. destruct H as (_ & _ & _ & _ & _ & ->).
  rewrite omap_app. f_equal.
  induction zs as [|z zs IH]; [reflexivity|].
  cbn [map concat]. by rewrite omap_app, item_trace_processing, IH.
Qed.

(** ** Nothing is removed once the folder is rebuilt *)

Lemma merged_files_keeps w extract_path (t : tree) p :
  is_Some (t !! p) -> is_Some (merged_files w extract_path t !! p).
Proof.
  intros H. unfold merged_files.
  destruct (pdf_merger_available w); [|exact H].
  destruct (candidates t); [exact H|].
  unfold write_outcome.
  destruct (merged_writable w); [by apply insert_keeps|].
  destruct (failed_write_leaves w); [by apply insert_keeps | exact H].
Qed.

(** X4. Neither the extraction loop nor the report and merge stage removes
    a file: a path that holds a file before still holds one after (its
    content may have been overwritten). *)
Theorem files_are_never_removed w directory extract_path zs st p :
  is_Some (files_of st !! p) ->
  is_Some (files_of (snd (for_each zs (process_item w directory extract_path) st)) !! p) /\
  is_Some (files_of (snd (report_and_merge w extract_path st)) !! p).
Proof.
  intros H. split.
  - pose proof (for_each_items w directory extract_path zs st) as Hl.
    cbn zeta in Hl. destruct Hl as (_ & -> & _).
    by apply fold_items_keeps.
  - rewrite report_and_merge_spec. cbn [snd].
    rewrite report_result_files. by apply merged_files_keeps.
Qed.

Lemma files_are_never_removed_witness :
  is_Some (files_of (initial (Some stale)) !! "/d/combined_extraction/old.txt") /\
  is_Some (files_of (snd (for_each ["a.zip"; "b.zip"; "c.zip"]
                            (process_item abc_world "/d" "/d/combined_extraction")
                            (initial (Some stale))))
             !! "/d/combined_extraction/old.txt").
Proof.
  assert (H : is_Some (files_of (initial (Some stale)) !! "/d/combined_extraction/old.txt"))
    by (vm_compute; eauto).
  split; [exact H|].
  exact (proj1 (files_are_never_removed abc_world "/d" "/d/combined_extraction"
                  ["a.zip"; "b.zip"; "c.zip"] (initial (Some stale)) _ H)).
Defined.

(** ** The merge stage writes one file *)

(** X5. The report and merge stage changes no file other than
    [merged.pdf], and leaves the counter as it is. *)
Theorem merge_touches_only_merged_pdf w extract_path st p :
  p <> Path.join extract_path "merged.pdf" ->
  files_of (snd (report_and_merge w extract_path st)) !! p = files_of st !! p /\
  total_files_extracted (snd (report_and_merge w extract_path st)) =
    total_files_extracted st.
Proof.
  intros Hp. rewrite report_and_merge_spec. cbn [snd].
  rewrite report_result_files, report_result_total. split; [|reflexivity].
  unfold merged_files.
  destruct (pdf_merger_available w); [|reflexivity].
  destruct (candidates (files_of st)); [reflexivity|].
  unfold write_outcome.
  destruct (merged_writable w); [apply lookup_insert_ne; congruence|].
  destruct (failed_write_leaves w); [apply lookup_insert_ne; congruence | reflexivity].
Qed.

Lemma merge_touches_only_merged_pdf_witness :
  "/d/combined_extraction/open.pdf" <> Path.join "/d/combined_extraction" "merged.pdf" /\
  files_of (snd (report_and_merge (directory_with []) "/d/combined_extraction"
                   locked_folder)) !! "/d/combined_extraction/open.pdf"
  = files_of locked_folder !! "/d/combined_extraction/open.pdf".
Proof.
  assert (H : "/d/combined_extraction/open.pdf" <>
              Path.join "/d/combined_extraction" "merged.pdf")
    by (vm_compute; discriminate).
  split; [exact H|].
  exact (proj1 (merge_touches_only_merged_pdf (directory_with [])
                  "/d/combined_extraction" locked_folder _ H)).
Defined.

(** ** Without PyPDF2 *)

(** X6. When PyPDF2 is missing, a run that passes setup and locates
    archives still extracts them: it ends normally, the folder is exactly
    what the extraction loop left, the skipped merge is announced, and no
    merger is ever opened. *)
Theorem extraction_completes_without_merger w directory old zs :
  pdf_merger_available w = false ->
  setup_ok w = true ->
  located w directory = Some zs ->
  let st := snd (run w directory old) in
  fst (run w directory old) = Normal tt /\
  extraction st = Some (extracted_files w (Path.join directory extraction_name) zs) /\
  In (Print MsgMergeSkipped) (trace st) /\
  ~ In (Print MsgCombining) (trace st) /\
  ~ In (Acquire HMerger) (trace st).
Proof.
  intros Ha Hs Hl st.
  destruct (run_files w directory old zs Hs Hl) as (Ho & Hx & _).
  split; [exact Ho|]. split.
  { subst st. rewrite Hx. unfold final_files, merged_files. by rewrite Ha. }
  subst st. destruct (run_located w directory old zs Hs Hl) as (es & Hes & ->).
  cbn [snd]. unfold report_result. rewrite Ha. cbn [emit trace].
  pose proof (extracted_spec w directory old es zs) as H. cbn zeta in H.
  destruct H as (_ & _ & ->).
  set (sample := match map _ _ with [] => [] | _ :: _ => _ end).
  set (Q := fun e : event => e <> Print MsgCombining /\ e <> Acquire HMerger).
  assert (HQ : Forall Q
    ((((es ++ recreate_trace (Path.join directory extraction_name) old ++
        concat (map (item_trace w directory (Path.join directory extraction_name)) zs)) ++
       [Print (MsgTotalExtracted (length (map (fun rf : string * string =>
                  Path.join rf.1 rf.2)
                  (walk_files (files_of (extracted w directory old es zs))))));
        Print (MsgExpected (total_files_extracted (extracted w directory old es zs)))] ++
       sample) ++ [Print MsgMergeSkipped; Print MsgPipInstall]) ++
     [Print MsgBatchCompleted;
      Print (MsgAllExtractedTo (Path.join directory extraction_name))])).
  { repeat (apply Forall_app; split);
      first
        [ eapply Forall_impl; [exact Hes|];
          intros [[]| | | |]; cbn; intros []; split; discriminate
        | apply Forall_concat, Forall_map, Forall_forall; intros z _;
          item_cases w z a; repeat constructor; discriminate
        | subst sample; destruct (map _ _); repeat constructor; discriminate
        | destruct old; repeat constructor; discriminate
        | repeat constructor; discriminate ]. }
  split; [|split].
  - apply in_or_app; left. apply in_or_app; right. cbn. tauto.
  - intros Hin. apply (proj1 (List.Forall_forall _ _) HQ) in Hin as [Hin _]. by apply Hin.
  - intros Hin. apply (proj1 (List.Forall_forall _ _) HQ) in Hin as [_ Hin]. by apply Hin.
Qed.

Lemma extraction_completes_without_merger_witness :
  pdf_merger_available no_merger_world = false /\
  located no_merger_world "/d" = Some ["a.zip"; "b.zip"; "c.zip"] /\
  extraction (snd (run no_merger_world "/d" (Some stale))) =
    Some (extracted_files no_merger_world (Path.join "/d" extraction_name)
            ["a.zip"; "b.zip"; "c.zip"]).
Proof.
  split; [reflexivity|]. split; [vm_compute; reflexivity|].
  destruct (extraction_completes_without_merger no_merger_world "/d" (Some stale)
              ["a.zip"; "b.zip"; "c.zip"]) as (_ & H & _);
    [reflexivity | reflexivity | vm_compute; reflexivity | exact H].
Defined.

(** ** The loop composes *)

(** X7. Since no iteration raises or returns, processing a list in two
    parts, the second from the state the first left, is processing the
    whole list. *)
Theorem loop_composes w directory extract_path l1 l2 st :
  for_each (l1 ++ l2) (process_item w directory extract_path) st =
  for_each l2 (process_item w directory extract_path)
    (snd (for_each l1 (process_item w directory extract_path) st)).
Proof.
  revert st. induction l1 as [|z l1 IH]; intros st; [reflexivity|].
  cbn [app for_each].
  pose proof (process_item_spec w directory extract_path z st) as H.
  cbn zeta in H. destruct H as (Ho & _).
  destruct (process_item w directory extract_path z st) as [o st1].
  cbn [fst] in Ho. destruct Ho as [-> | ->]; apply IH.
Qed.

(** ** The PDF scan *)

Lemma scan_pdfs_walk l :
  (forall k, In k l -> double_slash k = false) ->
  scan_pdfs (map (fun p => (Path.dirname p, Path.basename p)) l) =
  List.filter (fun k => is_pdf_name (Path.basename k)) l.
Proof.
  unfold scan_pdfs. induction l as [|k l IH]; intros H; [reflexivity|].
  cbn [map List.filter snd]. destruct (is_pdf_name (Path.basename k)).
  - cbn [map fst snd]. rewrite join_dirname_basename by (apply H; by left).
    f_equal. apply IH. intros k' Hk'. apply H. by right.
  - apply IH. intros k' Hk'. apply H. by right.
Qed.

Lemma NoDup_list_filter {A} (f : A -> bool) l :
  NoDup l -> NoDup (List.filter f l).
Proof.
  induction 1 as [|x l Hx Hl IH]; [constructor|].
  cbn. destruct (f x); [|exact IH].
  constructor; [|exact IH].
  intros Hin. apply Hx. apply list_elem_of_In in Hin.
  apply List.filter_In in Hin as [Hin _]. by apply list_elem_of_In.
Qed.

Lemma in_keys (t : tree) k :
  In k (map fst (map_to_list t)) <-> is_Some (t !! k).
Proof.
  rewrite in_map_iff. split.
  - intros ([k' c] & <- & Hin). apply list_elem_of_In, elem_of_map_to_list in Hin.
    cbn. eauto.
  - intros (c & Hc). exists (k, c). split; [reflexivity|].
    by apply list_elem_of_In, elem_of_map_to_list.
Qed.

Lemma candidates_filter (t : tree) :
  (forall k, is_Some (t !! k) -> double_slash k = false) ->
  candidates t =
  List.filter (fun k => is_pdf_name (Path.basename k)) (map fst (map_to_list t)).
Proof.
  intros H. unfold candidates, walk_files. apply scan_pdfs_walk.
  intros k Hk. apply H. by apply in_keys.
Qed.

(** X8. When no path of the folder holds a doubled ['/'], the scan of lines
    34-38 finds exactly the files whose name ends in [.pdf], any case, each
    under its own path and each once. *)
Theorem candidates_are_the_pdf_files (t : tree) :
  (forall k, is_Some (t !! k) -> double_slash k = false) ->
  NoDup (candidates t) /\
  forall p, In p (candidates t) <->
    is_Some (t !! p) /\ is_pdf_name (Path.basename p) = true.
Proof.
  intros H. rewrite (candidates_filter t H). split.
  - apply NoDup_list_filter. apply NoDup_fst_map_to_list.
  - intros p. rewrite List.filter_In, in_keys. reflexivity.
Qed.

Lemma candidates_are_the_pdf_files_witness :
  (forall k, is_Some (files_of locked_folder !! k) -> double_slash k = false) /\
  (In "/d/combined_extraction/locked.pdf" (candidates (files_of locked_folder)) <->
   is_Some (files_of locked_folder !! "/d/combined_extraction/locked.pdf") /\
   is_pdf_name (Path.basename "/d/combined_extraction/locked.pdf") = true).
Proof.
  assert (H : forall k, is_Some (files_of locked_folder !! k) -> double_slash k = false).
  { intros k (c & Hk). change (files_of locked_folder) with
      (list_to_map [("/d/combined_extraction/open.pdf", Pdf [1; 2] true);
                    ("/d/combined_extraction/locked.pdf", Pdf [3] false)]
       : tree) in Hk.
    apply elem_of_list_to_map_2 in Hk.
    apply list_elem_of_In in Hk. destruct Hk as [Hk | [Hk | []]];
      injection Hk as <- _; reflexivity. }
  split; [exact H|].
  exact (proj2 (candidates_are_the_pdf_files (files_of locked_folder) H) _).
Defined.

(** ** The order of the merge *)

(** X9. The order in which the candidates are merged, and so the pages of
    the merged document, depend only on which paths were found, not on the
    order in which [os.walk] yielded them. *)
Theorem merge_order_ignores_scan_order (t : tree) l1 l2 :
  l1 ≡ₚ l2 ->
  sort_paths l1 = sort_paths l2 /\
  flat_map (appended_pages t) (sort_paths l1) =
  flat_map (appended_pages t) (sort_paths l2).
Proof.
  intros Hp.
  assert (E : sort_paths l1 = sort_paths l2).
  { apply (Sorted_unique String.le); try apply sort_paths_sorted.
    by rewrite !sort_paths_perm. }
  split; [exact E | by rewrite E].
Qed.

Lemma merge_order_witness :
  ["/d/b.pdf"; "/d/a.pdf"] ≡ₚ ["/d/a.pdf"; "/d/b.pdf"] /\
  sort_paths ["/d/b.pdf"; "/d/a.pdf"] = sort_paths ["/d/a.pdf"; "/d/b.pdf"].
Proof.
  assert (H : ["/d/b.pdf"; "/d/a.pdf"] ≡ₚ ["/d/a.pdf"; "/d/b.pdf"]) by apply perm_swap.
  split; [exact H|].
  exact (proj1 (merge_order_ignores_scan_order ∅ _ _ H)).
Defined.

(** ** Handles of a whole run *)

Lemma setup_events_hold es held :
  Forall is_setup es -> outstanding es held = held.
Proof.
  intros H. apply outstanding_prints. eapply Forall_impl; [exact H|].
  intros [[]| | | |]; cbn; tauto.
Qed.

Lemma report_result_outstanding w extract_path st held :
  exists es,
    trace (report_result w extract_path st) = trace st ++ es /\
    outstanding es held =
      if pdf_merger_available w then
        match candidates (files_of st) with
        | [] => held
        | _ :: _ => if merged_writable w then held else HMerger :: held
        end
      else held.
Proof.
  unfold report_result. cbn [emit trace].
  set (sample := match map _ _ with [] => [] | _ :: _ => _ end).
  assert (Hs : forall h, outstanding sample h = h).
  { intros h. subst sample. by destruct (map _ _). }
  destruct (pdf_merger_available w).
  - match goal with
    | |- context [combine_result w extract_path ?s] =>
        destruct (combine_result_outstanding w extract_path s held) as (es & -> & Hes)
    end.
    rewrite files_of_emit in Hes. cbn [emit trace].
    eexists. rewrite <- !app_assoc. split; [reflexivity|].
    cbn [app outstanding]. rewrite !outstanding_app, Hs, Hes.
    destruct (candidates (files_of st)); [reflexivity|].
    by destruct (merged_writable w).
  - cbn [emit trace]. eexists. rewrite <- !app_assoc. split; [reflexivity|].
    cbn [app outstanding]. by rewrite !outstanding_app, Hs.
Qed.

(** X10. When [merger.write] succeeds, or PyPDF2 is missing, a run leaves
    no handle open, whatever the archives are and however each extraction
    ends. *)
Theorem run_closes_every_handle w directory old :
  merged_writable w = true \/ pdf_merger_available w = false ->
  outstanding (trace (snd (run w directory old))) [] = [].
Proof.
  intros H.
  assert (Hab : dir_exists w = false \/
                can_read w && can_write w && can_execute w = false \/
                located w directory = None ->
                outstanding (trace (snd (run w directory old))) [] = []).
  { intros Hf. destruct (run_aborts w directory old Hf) as (es & m & -> & Hes & Hm).
    cbn [snd emit trace initial app]. apply setup_events_hold.
    apply Forall_app; split; [exact Hes|].
    constructor; [|constructor]. by destruct Hm as [-> | [-> | ->]]. }
  destruct (setup_ok w) eqn:Hs.
  2:{ unfold setup_ok in Hs. apply andb_false_iff in Hs. apply Hab. tauto. }
  destruct (located w directory) as [zs|] eqn:Hl; [|apply Hab; auto].
  destruct (run_located w directory old zs Hs Hl) as (es & Hes & ->). cbn [snd].
  destruct (report_result_outstanding w (Path.join directory extraction_name)
              (extracted w directory old es zs) []) as (rest & -> & Hrest).
  pose proof (extracted_spec w directory old es zs) as Hx. cbn zeta in Hx.
  destruct Hx as (_ & _ & ->).
  rewrite !outstanding_app, (setup_events_hold es) by exact Hes.
  assert (Hr : outstanding (recreate_trace (Path.join directory extraction_name) old) [] = []).
  { unfold recreate_trace. by destruct old. }
  rewrite Hr, items_trace_releases, Hrest.
  destruct H as [-> | ->]; [|reflexivity].
  destruct (pdf_merger_available w); [|reflexivity].
  by destruct (candidates _).
Qed.

Lemma run_closes_every_handle_witness :
  merged_writable abc_world = true /\
  outstanding (trace (snd (run abc_world "/d" (Some stale)))) [] = [].
Proof.
  split; [reflexivity|].
  apply (run_closes_every_handle abc_world "/d" (Some stale)). by left.
Defined.

(** ** Files found against files expected *)

Lemma size_list_to_set_le (l : list string) :
  size (list_to_set l : gset string) <= length l.
Proof.
  induction l as [|x l IH]; [by rewrite list_to_set_nil, size_empty|].
  rewrite list_to_set_cons, size_union_alt, size_singleton. cbn [length].
  pose proof (subseteq_size (list_to_set l ∖ {[x]}) (list_to_set l : gset string)) as H.
  assert (Hsub : list_to_set l ∖ {[x]} ⊆ (list_to_set l : gset string)) by set_solver.
  specialize (H Hsub). lia.
Qed.

(** X11. In a run whose located archives are all valid, the number of files
    the run finds in the folder is at most the count it expected from the
    archives: entries that collide are counted once each but leave one
    file. *)
Theorem files_found_at_most_expected w directory old zs :
  setup_ok w = true ->
  located w directory = Some zs ->
  (forall i, In i zs -> exists a, stat w i = Some (File a) /\ valid a = true) ->
  exists found expected,
    In (Print (MsgTotalExtracted found)) (trace (snd (run w directory old))) /\
    In (Print (MsgExpected expected)) (trace (snd (run w directory old))) /\
    expected = total_files_extracted (snd (run w directory old)) /\
    found <= expected.
Proof.
  intros Hs Hl Hv.
  destruct (run_files w directory old zs Hs Hl) as (_ & _ & Ht).
  destruct (run_located w directory old zs Hs Hl) as (es & _ & Hrun).
  rewrite Hrun in *. cbn [snd] in *. rewrite report_result_total in Ht.
  destruct (report_result_trace w (Path.join directory extraction_name)
              (extracted w directory old es zs)) as (rest & -> & _).
  pose proof (extracted_spec w directory old es zs) as H. cbn zeta in H.
  destruct H as (Hx & _ & _).
  exists (length (map_to_list (files_of (extracted w directory old es zs)))),
         (total_files_extracted (extracted w directory old es zs)).
  split; [apply in_or_app; right; cbn; tauto|].
  split; [apply in_or_app; right; cbn; tauto|].
  split; [by rewrite report_result_total|].
  rewrite Ht, (sum_counts_valid w zs Hv).
  unfold files_of. rewrite Hx, length_map_to_list, <- size_dom.
  unfold extracted_files. rewrite fold_items_dom by exact Hv.
  rewrite dom_empty_L, (left_id_L ∅ (∪)).
  etransitivity; [apply size_list_to_set_le|].
  by rewrite length_map, length_flat_map_sum.
Qed.

Lemma files_found_at_most_expected_witness :
  setup_ok unsorted_world = true /\
  located unsorted_world "/d" = Some ["b.zip"; "a.zip"] /\
  In (Print (MsgTotalExtracted 1)) (trace (snd (run unsorted_world "/d" None))) /\
  In (Print (MsgExpected 2)) (trace (snd (run unsorted_world "/d" None))) /\
  exists found expected,
    In (Print (MsgTotalExtracted found)) (trace (snd (run unsorted_world "/d" None))) /\
    In (Print (MsgExpected expected)) (trace (snd (run unsorted_world "/d" None))) /\
    expected = total_files_extracted (snd (run unsorted_world "/d" None)) /\
    found <= expected.
Proof.
  split; [reflexivity|]. split; [vm_compute; reflexivity|].
  split; [vm_compute; tauto|]. split; [vm_compute; tauto|].
  apply (files_found_at_most_expected unsorted_world "/d" None ["b.zip"; "a.zip"]).
  - reflexivity.
  - vm_compute; reflexivity.
  - intros i [<- | [<- | []]]; eexists; split; reflexivity.
Defined.

(** ** The script around [batch_unzip] *)

(** X12. When PyPDF2 is importable the script ends by announcing the
    combined PDF at [combined_extraction/merged.pdf] under the fixed
    directory, also after a run that aborted at setup: with no extraction
    folder before the run there is none after it, and the announcement is
    printed all the same. When PyPDF2 is missing the announcement is never
    printed. *)
Theorem script_announces_merged_pdf_regardless w version :
  let announce := MsgCombinedAvailable
                    (join3 directory_path "combined_extraction" "merged.pdf") in
  (pdf_merger_available w = true ->
   dir_exists w = false \/
   can_read w && can_write w && can_execute w = false \/
   located w directory_path = None ->
   In announce (snd (script w version None)) /\
   extraction (snd (snd (fst (script w version None)))) = None) /\
  (pdf_merger_available w = false ->
   forall old, ~ In announce (snd (script w version old))).
Proof.
  intros announce. split.
  - intros Ha Hf. unfold script. cbn [fst snd].
    fold (run w directory_path None).
    destruct (run_aborts w directory_path None Hf) as (es & m & -> & _).
    rewrite Ha. split; [cbn; tauto | reflexivity].
  - intros Ha old. unfold script. cbn [fst snd]. rewrite Ha.
    destruct (fst (batch_unzip w directory_path (initial old))); cbn; try tauto.
    intros [H | []]. discriminate H.
Qed.

Lemma script_announces_witness :
  located no_zip_world directory_path = None /\
  In (MsgCombinedAvailable "/Users/cenghongyi/Downloads/WB9/combined_extraction/merged.pdf")
     (snd (script no_zip_world "3.12" None)) /\
  extraction (snd (snd (fst (script no_zip_world "3.12" None)))) = None.
Proof.
  assert (H : located no_zip_world directory_path = None) by (vm_compute; reflexivity).
  split; [exact H|].
  exact (proj1 (script_announces_merged_pdf_regardless no_zip_world "3.12")
           eq_refl (or_intror (or_intror H))).
Defined.

(** ** From the archives to the merged document *)

Lemma join_clean d b :
  double_slash d = false -> double_slash b = false -> Str.startswith "/" b = false ->
  double_slash (Path.join d b) = false.
Proof.
  intros Hd Hb Hs. unfold Path.join. rewrite Hs.
  destruct (String.eqb d "" || Str.endswith "/" d) eqn:J.
  - apply double_slash_app; [exact Hd | exact Hb | by right].
  - apply orb_false_elim in J as [_ E].
    apply double_slash_app; [exact Hd| |by left].
    by apply double_slash_after_slash.
Qed.

Lemma write_all_keys extract_path ms (t : tree) k :
  is_Some (write_all extract_path ms t !! k) ->
  is_Some (t !! k) \/ exists n, In n (map fst ms) /\ k = member_path extract_path n.
Proof.
  intros H. apply elem_of_dom in H. rewrite write_all_dom in H.
  apply elem_of_union in H as [H | H]; [left; by apply elem_of_dom|].
  right. apply elem_of_list_to_set, list_elem_of_In, in_map_iff in H.
  destruct H as (n & <- & Hn). apply List.filter_In in Hn as [Hn _]. eauto.
Qed.

Lemma leave_partial_keys extract_path m partial (t : tree) k :
  is_Some (leave_partial extract_path m partial t !! k) ->
  is_Some (t !! k) \/ k = member_path extract_path m.1.
Proof.
  unfold leave_partial. destruct partial as [c|]; [|by left].
  destruct (_ || _); [by left|].
  destruct (decide (member_path extract_path m.1 = k)) as [<-|Hne]; [by right|].
  rewrite lookup_insert_ne by exact Hne. by left.
Qed.

(** Whatever [extractall] leaves in the folder was there before or is the
    target of one of the members of the archive. *)
Lemma extractall_leaves_keys extract_path a (t : tree) k :
  is_Some (extractall_leaves extract_path a t !! k) ->
  is_Some (t !! k) \/ exists n, In n (namelist a) /\ k = member_path extract_path n.
Proof.
  unfold extractall_leaves. rewrite <- extract_list_names.
  destruct (raise_index _ _) as [j|]; [|apply write_all_keys].
  unfold interrupted.
  assert (Hw : is_Some (write_all extract_path (take j (extract_list a)) t !! k) ->
               is_Some (t !! k) \/
               exists n, In n (map fst (extract_list a)) /\ k = member_path extract_path n).
  { intros H. apply write_all_keys in H as [H | (n & Hn & ->)]; [by left|].
    right. exists n. split; [|reflexivity].
    apply in_map_iff in Hn as (m & <- & Hm). apply in_map. by eapply in_take. }
  destruct (zip_fault a) as [f|]; [|exact Hw].
  destruct (extract_list a !! j) as [m|] eqn:Hj; [|exact Hw].
  destruct (f =? j)%nat; [|exact Hw].
  intros H. apply leave_partial_keys in H as [H | ->]; [by apply Hw|].
  right. exists m.1. split; [|reflexivity].
  apply in_map, list_elem_of_In. by eapply list_elem_of_lookup_2.
Qed.

Lemma fold_items_keys w extract_path zs (t : tree) k :
  is_Some (fold_left (fun t i => item_files w extract_path i t) zs t !! k) ->
  is_Some (t !! k) \/
  exists i a n, In i zs /\ stat w i = Some (File a) /\ In n (namelist a) /\
                k = member_path extract_path n.
Proof.
  revert t. induction zs as [|z zs IH]; intros t H; [by left|].
  cbn [fold_left] in H. apply IH in H as [H | (i & a & n & Hi & Hrest)].
  - unfold item_files in H.
    destruct (stat w z) as [[a|?]|] eqn:Hs; try by left.
    destruct (passes_checks a); [|by left].
    apply extractall_leaves_keys in H as [H | (n & Hn & ->)]; [by left|].
    right. exists z, a, n. split; [by left|]. split; [exact Hs|].
    split; [exact Hn | reflexivity].
  - right. exists i, a, n. split; [by right | exact Hrest].
Qed.

(** X13. In a run that passes setup, with PyPDF2 available and a write that
    succeeds, in a target directory whose path holds no doubled ['/']:
    every readable PDF the loop left in the folder, under a name ending in
    [.pdf], has its pages, in their order, inside the merged document. The
    member names may be any: [zipfile] extracts them under names without
    empty, ['.'] or ['..'] components. *)
Theorem readable_pdfs_are_merged w directory old zs p ps :
  let extract_path := Path.join directory extraction_name in
  setup_ok w = true ->
  located w directory = Some zs ->
  pdf_merger_available w = true ->
  merged_writable w = true ->
  double_slash directory = false ->
  extracted_files w extract_path zs !! p = Some (Pdf ps true) ->
  is_pdf_name (Path.basename p) = true ->
  exists before after,
    files_of (snd (run w directory old)) !! Path.join extract_path "merged.pdf" =
    Some (Pdf (before ++ ps ++ after) true).
Proof.
  intros extract_path Hs Hl Ha Hw Hd Hp Hpdf.
  destruct (run_files w directory old zs Hs Hl) as (_ & Hx & _).
  unfold files_of. rewrite Hx. unfold final_files. fold extract_path.
  set (t := extracted_files w extract_path zs) in *.
  assert (He : double_slash extract_path = false).
  { subst extract_path. by apply join_clean. }
  assert (Hclean : forall k, is_Some (t !! k) -> double_slash k = false).
  { intros k Hk. subst t. unfold extracted_files in Hk.
    apply fold_items_keys in Hk as [Hk | (i & a & n & Hi & Hst & Hn & ->)].
    - rewrite lookup_empty in Hk. by destruct Hk.
    - by apply member_path_clean. }
  assert (Hin : In p (candidates t)).
  { rewrite (candidates_filter t Hclean). apply List.filter_In.
    split; [apply in_keys; rewrite Hp; eauto | exact Hpdf]. }
  assert (Hin' : In p (sort_paths (candidates t))).
  { apply list_elem_of_In. rewrite sort_paths_perm. by apply list_elem_of_In. }
  apply in_split in Hin' as (l1 & l2 & Hsplit).
  exists (flat_map (appended_pages t) l1), (flat_map (appended_pages t) l2).
  unfold merged_files, write_outcome. rewrite Ha, Hw.
  destruct (candidates t) as [|c cs] eqn:Ec; [destruct Hin|].
  rewrite lookup_insert_eq, Hsplit, flat_map_app. cbn [flat_map].
  unfold appended_pages at 2. rewrite Hp. reflexivity.
Qed.

Lemma readable_pdfs_are_merged_witness :
  located abc_world "/d" = Some ["a.zip"; "b.zip"; "c.zip"] /\
  extracted_files abc_world (Path.join "/d" extraction_name) ["a.zip"; "b.zip"; "c.zip"]
    !! "/d/combined_extraction/docs/a.pdf" = Some (Pdf [1; 2] true) /\
  exists before after,
    files_of (snd (run abc_world "/d" None))
      !! Path.join (Path.join "/d" extraction_name) "merged.pdf" =
    Some (Pdf (before ++ [1; 2] ++ after) true).
Proof.
  assert (Hl : located abc_world "/d" = Some ["a.zip"; "b.zip"; "c.zip"])
    by (vm_compute; reflexivity).
  assert (Hp : extracted_files abc_world (Path.join "/d" extraction_name)
                 ["a.zip"; "b.zip"; "c.zip"]
                 !! "/d/combined_extraction/docs/a.pdf" = Some (Pdf [1; 2] true))
    by (vm_compute; reflexivity).
  split; [exact Hl|]. split; [exact Hp|].
  apply (readable_pdfs_are_merged abc_world "/d" None ["a.zip"; "b.zip"; "c.zip"]
           "/d/combined_extraction/docs/a.pdf" [1; 2]);
    try reflexivity; try exact Hl; exact Hp.
Defined.

(** Two members that [zipfile] extracts under one name leave one PDF, the
    later one, and only its pages are merged. *)
Example same_pdf_merged_once :
  let w := directory_with
             [("t.zip", File (zip_of [("t.pdf", Pdf [1] true); ("./t.pdf", Pdf [2] true)]))] in
  extraction (snd (run w "/d" None)) =
  Some (list_to_map [("/d/combined_extraction/t.pdf", Pdf [2] true);
                     ("/d/combined_extraction/merged.pdf", Pdf [2] true)]).
Proof. apply (bool_decide_unpack _). vm_compute. exact I. Qed.

